(** * xterm.js display pipeline: reflow index, render scheduler, cell compositor

    A shallow embedding of [utils/LineWrap] (the revision that carries
    [trimStart], [addRowToLine], [setLineLength] and the three-argument
    [changeLineLength]) and of [Renderer.ts] ([trimBlank], [chunkArray],
    [queueRefresh], [_refreshLoop], and the row loop, the column loop and the
    attribute decoding of [_refresh]).

    JavaScript numbers are embedded as [Z]: every index, length and palette
    entry the code handles is an integer.  A value that JavaScript would turn
    into [NaN] (an [undefined] argument, an array of several samples used as a
    number) is [None] of [option Z].  Column widths are taken from 1 upwards:
    a division by a zero width yields [Infinity] in the source, which the
    integer embedding does not represent. *)

From Stdlib Require Import ZArith List Lia Bool String Ascii.
Import ListNotations.
Open Scope Z_scope.

(** ** Cells and lines

    A cell is the array [[attr, ch, ch_width]] of the screen buffer. *)
Record Cell : Type := mkCell { attr : Z; ch : string; chWidth : Z }.

Definition Line : Type := list Cell.

(** How a method call ends: it returns, or a [TypeError] escapes it; in both
    cases [s] is the state the call leaves behind. *)
Inductive Result (S : Type) : Type :=
| Returns (s : S)
| Throws (s : S).
Arguments Returns {S} _.
Arguments Throws {S} _.

Definition stateOf {S : Type} (r : Result S) : S :=
  match r with
  | Returns s => s
  | Throws s => s
  end.

Definition returns {S : Type} (r : Result S) : bool :=
  match r with
  | Returns _ => true
  | Throws _ => false
  end.

(** ** CircularList *)
Module CircularList.

(** Modelled from the spec: the class [CircularList] of [utils/CircularList],
    which [LineWrap] imports and which is not among the sources.  The spec
    describes it as a bounded sequence with capacity [maxLength] whose oldest
    entries are evicted on overflow.  [items] lists the retained elements,
    oldest first. *)
Record t (A : Type) : Type := mk { items : list A; maxLength : Z }.
Arguments mk {A} _ _.
Arguments items {A} _.
Arguments maxLength {A} _.

Section Operations.
Context {A : Type}.

Definition length (c : t A) : Z := Z.of_nat (List.length (items c)).

(** Modelled from the spec: [get(i)], validated against the current length.
    [None] stands for the absent element: the caller that tests it sees a
    falsy value, the caller that dereferences it fails. *)
Definition get (c : t A) (i : Z) : option A :=
  if (0 <=? i) && (i <? length c) then nth_error (items c) (Z.to_nat i) else None.

(** Modelled from the spec: [push(v)] evicts the oldest element at capacity. *)
Definition push (c : t A) (v : A) : t A :=
  if length c <? maxLength c
  then mk (items c ++ [v]) (maxLength c)
  else mk (skipn 1 (items c) ++ [v]) (maxLength c).

(** Modelled from the spec: [trimStart(count)] drops the oldest [count]
    elements. *)
Definition trimStart (c : t A) (count : Z) : t A :=
  mk (skipn (Z.to_nat count) (items c)) (maxLength c).

(** Modelled from the spec: [filter(callback)], the retained elements that
    satisfy the callback, in order. *)
Definition filter (c : t A) (callback : A -> bool) : list A :=
  List.filter callback (items c).

(** In-place mutation of the element object stored at position [i]. *)
Fixpoint alterAt (i : nat) (f : A -> A) (l : list A) : list A :=
  match l, i with
  | [], _ => []
  | x :: l', O => f x :: l'
  | x :: l', S i' => x :: alterAt i' f l'
  end.

(** In-place mutation of the object that [filter(p)[0]] returns. *)
Fixpoint alterFirst (p : A -> bool) (f : A -> A) (l : list A) : list A :=
  match l with
  | [] => []
  | x :: l' => if p x then f x :: l' else x :: alterFirst p f l'
  end.

End Operations.
End CircularList.

(** ** LineWrap *)
Module LineWrap.

(** The objects stored in [_rowIndices]: [{lineIndex, startIndex, endIndex}]
    as [push] creates them, with the optional array [lineLength] that
    [setLineLength] attaches. *)
Record RowIndex : Type := mkRow
  { lineIndex : Z; startIndex : Z; endIndex : Z; lineLength : option (list Z) }.

(** The private field [_rowIndices]. *)
Definition t : Type := CircularList.t RowIndex.

Definition Buffer : Type := CircularList.t Line.

Definition items (st : t) : list RowIndex := CircularList.items st.

Definition withItems (st : t) (l : list RowIndex) : t :=
  CircularList.mk l (CircularList.maxLength st).

Definition create (maxLength : Z) : t := CircularList.mk [] maxLength.

(** [Math.ceil(a / b)] on integers, [b] not zero. *)
Definition ceilDiv (a b : Z) : Z := - ((- a) / b).

(** The number an array of samples becomes when it is used as an operand of
    [/]: an empty array is 0, a one-element array is its element, a longer one
    is [NaN]. *)
Definition toNumber (samples : list Z) : option Z :=
  match samples with
  | [] => Some 0
  | [x] => Some x
  | _ => None
  end.

(** [Math.ceil(lineLength / length) > 0 ? Math.ceil(lineLength / length) : 1];
    a comparison with [NaN] is false. *)
Definition newRowCountInLine (lineLength_ : option Z) (length : Z) : Z :=
  match lineLength_ with
  | Some n => if 0 <? ceilDiv n length then ceilDiv n length else 1
  | None => 1
  end.
Arguments newRowCountInLine : simpl never.

Definition covers (index : Z) (r : RowIndex) : bool :=
  (index >=? startIndex r) && (index <=? endIndex r).

Definition getRowIndex (st : t) (index : Z) : option RowIndex :=
  hd_error (CircularList.filter st (covers index)).

Definition getRow (st : t) (index : Z) : option RowIndex :=
  CircularList.get st index.

Definition push (st : t) : t :=
  let last := CircularList.get st (CircularList.length st - 1) in
  let lineIndex_ := match last with Some r => lineIndex r + 1 | None => 0 end in
  let startIndex_ := match last with Some r => endIndex r + 1 | None => 0 end in
  let endIndex_ := startIndex_ in
  CircularList.push st (mkRow lineIndex_ startIndex_ endIndex_ None).

Definition hasLineIndex (i : Z) (r : RowIndex) : bool := lineIndex r =? i.

Definition addSample (sample : Z) (r : RowIndex) : RowIndex :=
  mkRow (lineIndex r) (startIndex r) (endIndex r)
        (Some (match lineLength r with Some l => l | None => [] end ++ [sample])).

(** The [while] loop of [setLineLength] stops at the first entry whose
    [lineIndex] matches; the sample is computed from that entry. *)
Definition setLineLength (st : t) (lineIndex_ length width : Z) : t :=
  withItems st
    (CircularList.alterFirst (hasLineIndex lineIndex_)
       (fun r => addSample ((endIndex r - startIndex r) * width + length) r)
       (items st)).

Definition growRow (r : RowIndex) : RowIndex :=
  mkRow (lineIndex r) (startIndex r) (endIndex r + 1) (lineLength r).

Definition shiftRow (r : RowIndex) : RowIndex :=
  mkRow (lineIndex r) (startIndex r + 1) (endIndex r + 1) (lineLength r).

(** The [for] loop of [addRowToLine]: [n] iterations are left, the loop
    variable is [i]. *)
Fixpoint shiftLoop (n : nat) (i : Z) (l : list RowIndex) : list RowIndex :=
  match n with
  | O => l
  | S n' => shiftLoop n' (i + 1) (CircularList.alterFirst (hasLineIndex i) shiftRow l)
  end.

(** [lineContainingRowIndex.endIndex++] throws when no entry covers [index],
    before anything is changed. *)
Definition addRowToLine (st : t) (index : Z) : Result t :=
  match getRowIndex st index with
  | None => Throws st
  | Some lineContainingRowIndex =>
      let l := CircularList.alterFirst (covers index) growRow (items st) in
      let i0 := lineIndex lineContainingRowIndex + 1 in
      Returns (withItems st (shiftLoop (Z.to_nat (CircularList.length st - i0)) i0 l))
  end.

Definition lowerRow (count : Z) (r : RowIndex) : RowIndex :=
  mkRow (lineIndex r - count) (startIndex r - count) (endIndex r - count) (lineLength r).

(** The [for] loop of [trimStart], [n] iterations left at loop variable [i].
    [this._rowIndices.get(i).lineIndex -= count] throws on an absent entry;
    the entries adjusted so far stay adjusted. *)
Fixpoint trimLoop (n : nat) (i : Z) (count : Z) (c : t) : Result t :=
  match n with
  | O => Returns c
  | S n' =>
      match CircularList.get c i with
      | None => Throws c
      | Some _ =>
          trimLoop n' (i + 1) count
            (withItems c (CircularList.alterAt (Z.to_nat i) (lowerRow count) (items c)))
      end
  end.

Definition trimStart (st : t) (count : Z) : Result t :=
  let c := CircularList.trimStart st count in
  trimLoop (Z.to_nat (CircularList.maxLength c)) 0 count c.

(** The body of the [for] loop of [changeLineLength], over the entries in
    [get(i)] order.  [prevLine] is the entry updated by the previous iteration,
    [foundCursor] the flag of the source; [cursorPos] is [None] when the
    caller passes no third argument. *)
Fixpoint changeLoop (lines : Buffer) (length : Z) (cursorPos : option Z)
    (prevLine : option RowIndex) (foundCursor : bool) (rows : list RowIndex)
    : list RowIndex :=
  match rows with
  | [] => []
  | lineStats :: rest =>
      let startIndex_ :=
        match prevLine with
        | Some p => endIndex p + 1
        | None => startIndex lineStats
        end in
      match CircularList.get lines (lineIndex lineStats) with
      | Some _ =>
          let '(lineLength_, foundCursor') :=
            match lineLength lineStats with
            | Some samples => (toNumber samples, foundCursor)
            | None => if foundCursor then (Some 0, foundCursor) else (cursorPos, true)
            end in
          let endIndex_ := startIndex_ + newRowCountInLine lineLength_ length - 1 in
          let lineStats' :=
            mkRow (lineIndex lineStats) startIndex_ endIndex_ (lineLength lineStats) in
          lineStats' :: changeLoop lines length cursorPos (Some lineStats') foundCursor' rest
      | None =>
          let endIndex_ := startIndex_ + (endIndex lineStats - startIndex lineStats) in
          let lineStats' :=
            mkRow (lineIndex lineStats) startIndex_ endIndex_ (lineLength lineStats) in
          lineStats' :: changeLoop lines length cursorPos (Some lineStats') foundCursor rest
      end
  end.

Definition changeLineLength (st : t) (lines : Buffer) (length : Z) (cursorPos : option Z) : t :=
  withItems st (changeLoop lines length cursorPos None false (items st)).

Definition numRows (r : RowIndex) : Z := endIndex r - startIndex r + 1.

Definition rowCount (st : t) : Z :=
  fold_left (fun count lineStats => count + numRows lineStats) (items st) 0.

(** *** Layout predicates *)

Fixpoint sumRows (l : list RowIndex) : Z :=
  match l with
  | [] => 0
  | r :: l' => numRows r + sumRows l'
  end.

(** The spans of [l] follow one another from row [lo] on, each at least one
    row long. *)
Fixpoint contiguousFrom (lo : Z) (l : list RowIndex) : Prop :=
  match l with
  | [] => True
  | r :: l' =>
      startIndex r = lo /\ startIndex r <= endIndex r /\ contiguousFrom (endIndex r + 1) l'
  end.

(** The entry at position [i] of [l] has [lineIndex] [b + i]. *)
Fixpoint indexedFrom (b : Z) (l : list RowIndex) : Prop :=
  match l with
  | [] => True
  | r :: l' => lineIndex r = b /\ indexedFrom (b + 1) l'
  end.

Definition contiguous (st : t) : Prop := contiguousFrom 0 (items st).

Definition indexed (st : t) : Prop := indexedFrom 0 (items st).

Definition startsAtZero (st : t) : Prop :=
  forall r, hd_error (items st) = Some r -> startIndex r = 0.

(** Every entry whose line is missing from the buffer spans at least one row. *)
Definition orphansSpan (lines : Buffer) (l : list RowIndex) : Prop :=
  forall r, In r l -> CircularList.get lines (lineIndex r) = None ->
    startIndex r <= endIndex r.

(** Each entry of [l] starts on the row after the end of the entry before
    it. *)
Fixpoint linked (l : list RowIndex) : Prop :=
  match l with
  | [] => True
  | r1 :: l' =>
      match l' with
      | [] => True
      | r2 :: _ => startIndex r2 = endIndex r1 + 1 /\ linked l'
      end
  end.

Definition adjacent (st : t) : Prop :=
  forall i r1 r2,
    nth_error (items st) i = Some r1 ->
    nth_error (items st) (S i) = Some r2 ->
    startIndex r2 = endIndex r1 + 1.

Definition coverCount (st : t) (row : Z) : nat :=
  List.length (CircularList.filter st (covers row)).

(** The spans partition [0, rowCount): a row of the range lies in exactly one
    span, any other row in none. *)
Definition partitions (st : t) : Prop :=
  forall row,
    coverCount st row = if (0 <=? row) && (row <? rowCount st) then 1%nat else 0%nat.

End LineWrap.

(** ** Renderer *)
Module Renderer.

Definition MAX_REFRESH_FRAME_SKIP : Z := 5.

Module FLAGS.
Definition BOLD : Z := 1.
Definition UNDERLINE : Z := 2.
Definition BLINK : Z := 4.
Definition INVERSE : Z := 8.
Definition INVISIBLE : Z := 16.
End FLAGS.

(** [Array.prototype.slice(b, e)]: a negative index counts from the end, an
    index past the end is the length. *)
Definition clampIndex (len k : Z) : Z :=
  if k <? 0 then Z.max (len + k) 0 else Z.min k len.

Definition slice {A : Type} (l : list A) (b e : Z) : list A :=
  let len := Z.of_nat (List.length l) in
  let b' := clampIndex len b in
  let e' := clampIndex len e in
  firstn (Z.to_nat (e' - b')) (skipn (Z.to_nat b') l).

(** The [for] loop of [trimBlank]: [n] is [i + 1], the result is the value of
    [i] when the loop ends.  [line[i]] exists for every [i] the loop visits. *)
Fixpoint trimScan (line : Line) (min blank : Z) (n : nat) : Z :=
  match n with
  | O => -1
  | S k =>
      let i := Z.of_nat k in
      match nth_error line k with
      | None => i
      | Some c =>
          if i >=? min
          then if negb (ch c =? " ")%string then i else trimScan line min blank k
          else if negb (ch c =? " ")%string || negb (attr c =? blank) then i
               else trimScan line min blank k
      end
  end.

Definition trimBlank (line : Line) (min blank : Z) : Line :=
  let i := trimScan line min blank (List.length line) in
  let i := if i <? min then min else i + 2 in
  slice line 0 i.

(** The [for] loop of [chunkArray].  It does not end for a chunk size below 1
    on a non-empty array: [None] is the loop still running when the fuel is
    spent. *)
Fixpoint chunkLoop {A : Type} (fuel : nat) (array : list A) (chunkSize i : Z)
    (temparray : list (list A)) : option (list (list A)) :=
  if i <? Z.of_nat (List.length array)
  then match fuel with
       | O => None
       | S fuel' =>
           chunkLoop fuel' array chunkSize (i + chunkSize)
             (temparray ++ [slice array i (i + chunkSize)])
       end
  else Some temparray.

Definition chunkArray {A : Type} (array : list A) (chunkSize : Z) : option (list (list A)) :=
  chunkLoop (List.length array) array chunkSize 0 [].


(** Every segment but the last is [size] cells long, the last one between 1
    and [size]. *)
Fixpoint fullButLast {A : Type} (size : nat) (segs : list (list A)) : Prop :=
  match segs with
  | [] => True
  | seg :: rest =>
      match rest with
      | [] => (1 <= List.length seg <= size)%nat
      | _ => List.length seg = size /\ fullButLast size rest
      end
  end.

(** *** Attribute decoding *)

Inductive ClassName : Type :=
| XtermBold
| XtermUnderline
| XtermBlink
| XtermHidden
| XtermBgColor (n : Z)
| XtermColor (n : Z).

(** The opening [<span>] of a run: its class names, and the final values of
    the variables [bg] and [fg]. *)
Record Span : Type := mkSpan { classNames : list ClassName; bg : Z; fg : Z }.

Definition truthy (n : Z) : bool := negb (n =? 0).

Definition storedBg (data : Z) : Z := Z.land data 0x1ff.
Definition storedFg (data : Z) : Z := Z.land (Z.shiftr data 9) 0x1ff.
Definition storedFlags (data : Z) : Z := Z.shiftr data 18.

Definition hasFlag (data flag : Z) : bool := truthy (Z.land (storedFlags data) flag).

(** The [else] branch of [if (data === -1)] in [_refresh]; [brokenBold] is
    the module-level variable. *)
Definition decode (brokenBold : bool) (data : Z) : Span :=
  let classNames := [] in
  let bg := storedBg data in
  let fg := storedFg data in
  let flags := storedFlags data in
  let '(classNames, fg) :=
    if truthy (Z.land flags FLAGS.BOLD)
    then (if negb brokenBold then classNames ++ [XtermBold] else classNames,
          if fg <? 8 then fg + 8 else fg)
    else (classNames, fg) in
  let classNames :=
    if truthy (Z.land flags FLAGS.UNDERLINE) then classNames ++ [XtermUnderline] else classNames in
  let classNames :=
    if truthy (Z.land flags FLAGS.BLINK) then classNames ++ [XtermBlink] else classNames in
  let '(bg, fg) :=
    if truthy (Z.land flags FLAGS.INVERSE)
    then let '(bg, fg) := (fg, bg) in
         (bg, if truthy (Z.land flags 1) && (fg <? 8) then fg + 8 else fg)
    else (bg, fg) in
  let classNames :=
    if truthy (Z.land flags FLAGS.INVISIBLE) then classNames ++ [XtermHidden] else classNames in
  let '(bg, fg) :=
    if truthy (Z.land flags FLAGS.INVERSE)
    then (if bg =? 257 then 15 else bg, if fg =? 256 then 0 else fg)
    else (bg, fg) in
  let classNames := if bg <? 256 then classNames ++ [XtermBgColor bg] else classNames in
  let classNames := if fg <? 256 then classNames ++ [XtermColor fg] else classNames in
  mkSpan classNames bg fg.

(** The attribute word [(flags << 18) | (fg << 9) | bg]. *)
Definition attrWord (flags fg_ bg_ : Z) : Z :=
  Z.lor (Z.lor (Z.shiftl flags 18) (Z.shiftl fg_ 9)) bg_.

(** The bright colour a bold run uses for one of the first eight palette
    entries ([XTerm*boldColors]). *)
Definition boldColor (bold : bool) (index : Z) : Z :=
  if bold && (index <? 8) then index + 8 else index.

(** The background and the foreground a run ends up with. *)
Definition emittedBg (data : Z) : Z :=
  if hasFlag data FLAGS.INVERSE
  then let b := boldColor (hasFlag data FLAGS.BOLD) (storedFg data) in
       if b =? 257 then 15 else b
  else storedBg data.

Definition emittedFg (data : Z) : Z :=
  if hasFlag data FLAGS.INVERSE
  then let f := boldColor (hasFlag data FLAGS.BOLD) (storedBg data) in
       if f =? 256 then 0 else f
  else boldColor (hasFlag data FLAGS.BOLD) (storedFg data).

Definition flagClasses (brokenBold : bool) (data : Z) : list ClassName :=
  (if hasFlag data FLAGS.BOLD && negb brokenBold then [XtermBold] else [])
  ++ (if hasFlag data FLAGS.UNDERLINE then [XtermUnderline] else [])
  ++ (if hasFlag data FLAGS.BLINK then [XtermBlink] else [])
  ++ (if hasFlag data FLAGS.INVISIBLE then [XtermHidden] else []).

Definition colourClasses (bg_ fg_ : Z) : list ClassName :=
  (if bg_ <? 256 then [XtermBgColor bg_] else [])
  ++ (if fg_ <? 256 then [XtermColor fg_] else []).

(** *** Refresh scheduling *)

Record DirtyRange : Type := mkRange { start : Z; end_ : Z }.

(** The fields of [ITerminal] the scheduler reads. *)
Record Terminal : Type := mkTerminal { writeBuffer : list string; rows : Z }.

(** [_refreshAnimationFrame] is [true] while a frame callback is requested. *)
Record t : Type := mk
  { _refreshRowsQueue : list DirtyRange;
    _refreshFramesSkipped : Z;
    _refreshAnimationFrame : bool }.

Inductive Effect : Type :=
| RequestAnimationFrame
| Refresh (start end_ : Z).

Definition queueRefresh (r : t) (start_ end__ : Z) : t * list Effect :=
  let queue := _refreshRowsQueue r ++ [mkRange start_ end__] in
  if negb (_refreshAnimationFrame r)
  then (mk queue (_refreshFramesSkipped r) true, [RequestAnimationFrame])
  else (mk queue (_refreshFramesSkipped r) (_refreshAnimationFrame r), []).

(** One iteration of the merging [for] loop of [_refreshLoop]. *)
Definition mergeRange (acc : Z * Z) (q : DirtyRange) : Z * Z :=
  let '(start_, end__) := acc in
  (if start q <? start_ then start q else start_,
   if end_ q >? end__ then end_ q else end__).

(** [_refreshLoop]; the effects are the calls it makes to
    [requestAnimationFrame] and to [_refresh].  [_refreshRowsQueue[0].start]
    throws on an empty queue. *)
Definition _refreshLoop (term : Terminal) (r : t) : Result t * list Effect :=
  let nonEmpty := 0 <? Z.of_nat (List.length (writeBuffer term)) in
  let skipFrame := nonEmpty && (_refreshFramesSkipped r <=? MAX_REFRESH_FRAME_SKIP) in
  let skipped := if nonEmpty then _refreshFramesSkipped r + 1 else _refreshFramesSkipped r in
  if skipFrame
  then (Returns (mk (_refreshRowsQueue r) skipped true), [RequestAnimationFrame])
  else
    let range :=
      if 4 <? Z.of_nat (List.length (_refreshRowsQueue r))
      then Some (0, rows term - 1)
      else match _refreshRowsQueue r with
           | [] => None
           | q0 :: rest => Some (fold_left mergeRange rest (start q0, end_ q0))
           end in
    match range with
    | None => (Throws (mk (_refreshRowsQueue r) 0 (_refreshAnimationFrame r)), [])
    | Some (start_, end__) => (Returns (mk [] 0 false), [Refresh start_ end__])
    end.

(** Successive calls of [queueRefresh], with the effects of all of them. *)
Fixpoint queueAll (r : t) (ranges : list DirtyRange) : t * list Effect :=
  match ranges with
  | [] => (r, [])
  | q :: ranges' =>
      let '(r', effects) := queueRefresh r (start q) (end_ q) in
      let '(r'', effects') := queueAll r' ranges' in
      (r'', effects ++ effects')
  end.

(** Successive frame callbacks, one per terminal snapshot. *)
Fixpoint runFrames (terms : list Terminal) (r : t) : Result t * list Effect :=
  match terms with
  | [] => (Returns r, [])
  | term :: terms' =>
      match _refreshLoop term r with
      | (Returns r', effects) =>
          let '(res, effects') := runFrames terms' r' in (res, effects ++ effects')
      | (Throws r', effects) => (Throws r', effects)
      end
  end.

(** [x] is the least, respectively the greatest, element of [l]. *)
Definition isMin (x : Z) (l : list Z) : Prop := In x l /\ forall y, In y l -> x <= y.
Definition isMax (x : Z) (l : list Z) : Prop := In x l /\ forall y, In y l -> y <= x.

End Renderer.

(** ** The reflow rule in the specification's words *)
Module ReflowSpec.
Import LineWrap.

Definition isBlank (c : Cell) : bool := (ch c =? " ")%string.

(** Dropping the blanks at the end of a line. *)
Fixpoint stripTrailingBlanks (line : Line) : Line :=
  match line with
  | [] => []
  | c :: rest =>
      match stripTrailingBlanks rest with
      | [] => if isBlank c then [] else [c]
      | rest' => c :: rest'
      end
  end.

(** The live content length with trailing blanks stripped, one character at
    least. *)
Definition liveLength (line : Line) : Z :=
  Z.max 1 (Z.of_nat (List.length (stripTrailingBlanks line))).

(** The significant length of a retained line: the cached value if present,
    else the live content length. *)
Definition significantLength (r : RowIndex) (line : Line) : option Z :=
  match lineLength r with
  | Some samples => toNumber samples
  | None => Some (liveLength line)
  end.

(** [max(1, ceil(significantLength / width))]. *)
Definition lineRows (r : RowIndex) (line : Line) (width : Z) : Z :=
  match significantLength r line with
  | Some n => Z.max 1 (ceilDiv n width)
  | None => 1
  end.

End ReflowSpec.

(** ** What [changeLineLength] computes, entry by entry *)
Module Reflow.
Import LineWrap.

(** A retained line without cached length: its length is taken from the
    cursor position, once. *)
Definition usesCursor (lines : Buffer) (r : RowIndex) : bool :=
  match CircularList.get lines (lineIndex r), lineLength r with
  | Some _, None => true
  | _, _ => false
  end.

(** The length [changeLineLength] divides by the width for entry [r], the
    entries before it being [before]. *)
Definition lengthUsed (lines : Buffer) (cursorPos : option Z)
    (before : list RowIndex) (r : RowIndex) : option Z :=
  match lineLength r with
  | Some samples => toNumber samples
  | None => if existsb (usesCursor lines) before then Some 0 else cursorPos
  end.

Definition rowsFor (n : option Z) (width : Z) : Z :=
  match n with
  | Some n => Z.max 1 (ceilDiv n width)
  | None => 1
  end.
Arguments rowsFor : simpl never.

(** The number of rows entry [r] has after the call. *)
Definition rowsAssigned (lines : Buffer) (width : Z) (cursorPos : option Z)
    (before : list RowIndex) (r : RowIndex) : Z :=
  match CircularList.get lines (lineIndex r) with
  | Some _ => rowsFor (lengthUsed lines cursorPos before r) width
  | None => numRows r
  end.

Fixpoint totalAssigned (lines : Buffer) (width : Z) (cursorPos : option Z)
    (before l : list RowIndex) : Z :=
  match l with
  | [] => 0
  | r :: l' =>
      rowsAssigned lines width cursorPos before r
      + totalAssigned lines width cursorPos (before ++ [r]) l'
  end.

(** The row at which the loop of [changeLineLength] lays out [rows]. *)
Definition layoutStart (prevLine : option RowIndex) (rows : list RowIndex) : Z :=
  match prevLine, rows with
  | Some p, _ => endIndex p + 1
  | None, r :: _ => startIndex r
  | None, [] => 0
  end.

End Reflow.

(** ** Concrete states *)
Module Examples.
Import LineWrap.

Definition letter : Cell := mkCell 131840 "a" 1.
Definition blank : Cell := mkCell 131840 " " 1.

Definition tenLetters : Line := repeat letter 10.

(** A list of capacity 1 after two pushes: the first entry was evicted. *)
Definition evictedOne : t := push (push (create 1)).

(** A list of capacity 2 after three pushes. *)
Definition evictedTwo : t := push (push (push (create 2))).

(** Three single-row entries, the second with the cached length 25. *)
Definition threeRows : t := setLineLength (push (push (push (create 10)))) 1 25 80.

(** A buffer that holds lines 0 and 1 only. *)
Definition twoLines : Buffer := CircularList.mk [tenLetters; tenLetters] 10.

Definition oneRow : t := push (create 10).

Definition oneLine : Buffer := CircularList.mk [tenLetters] 10.

(** A full list of capacity 2. *)
Definition fullTwo : t := push (push (create 2)).

End Examples.

(** ** Further members of LineWrap *)
Module LineWrapOps.
Import LineWrap.

(** [relativeCharPosition(charIndex, lineIndex, width)]; [None] is the
    [TypeError] raised by [lineStats.startIndex] when [getRowIndex] found no
    entry. *)
Definition relativeCharPosition (st : t) (charIndex lineIndex_ width : Z) : option Z :=
  match getRowIndex st lineIndex_ with
  | None => None
  | Some lineStats => Some ((lineIndex_ - startIndex lineStats) * width + charIndex)
  end.

End LineWrapOps.

(** ** The row compositor of [_refresh] *)
Module Compositor.
Import Renderer.

(** The pieces [_refresh] appends to [out]. *)
Inductive Token : Type :=
| SpanClose                                (* </span> *)
| CursorOpen                               (* <span class="reverse-video terminal-cursor"> *)
| SpanOpen (classNames : list ClassName)   (* <span>, or <span class="..."> *)
| WideOpen                                 (* <span class="xterm-wide-char"> *)
| Text (s : string).                       (* an escaped character *)

(** The [switch (ch)] of [_refresh]. *)
Definition escape (ch : string) : string :=
  if (ch =? "&")%string then "&amp;"%string
  else if (ch =? "<")%string then "&lt;"%string
  else if (ch =? ">")%string then "&gt;"%string
  else if (ch <=? " ")%string then "&nbsp;"%string
  else ch.

(** The span opened for the attribute [data], which is not the default. *)
Definition openSpan (brokenBold : bool) (data : Z) : Token :=
  if data =? -1 then CursorOpen else SpanOpen (classNames (decode brokenBold data)).

(** The body of [if (data !== attr)]. *)
Definition transition (brokenBold : bool) (defAttr attr_ data : Z) : list Token :=
  if data =? attr_ then []
  else (if attr_ =? defAttr then [] else [SpanClose])
       ++ (if data =? defAttr then [] else [openSpan brokenBold data]).

(** The [for (; i < width; i++)] loop of [_refresh] over one line: [n]
    iterations are left at column [i], [attr_] is the running attribute, [x]
    the cursor column (or -1).  The result is the final attribute and [out]. *)
Fixpoint renderLoop (brokenBold : bool) (defAttr x : Z) (line : Line)
    (n : nat) (i : Z) (attr_ : Z) (out : list Token) : Z * list Token :=
  match n with
  | O => (attr_, out)
  | S n' =>
      let '(data, ch_, ch_width) :=
        match nth_error line (Z.to_nat i) with
        | None => (defAttr, " "%string, 1)
        | Some c => (attr c, ch c, chWidth c)
        end in
      if ch_width =? 0
      then renderLoop brokenBold defAttr x line n' (i + 1) attr_ out
      else
        let data := if i =? x then -1 else data in
        let out := out ++ transition brokenBold defAttr attr_ data in
        let out := if ch_width =? 2 then out ++ [WideOpen] else out in
        let out := out ++ [Text (escape ch_)] in
        let out := if ch_width =? 2 then out ++ [SpanClose] else out in
        renderLoop brokenBold defAttr x line n' (i + 1) data out
  end.

(** The markup of one line: the loop from column 0 with the default
    attribute, and the closing [</span>] of a run that is still open. *)
Definition renderLine (brokenBold : bool) (defAttr width x : Z) (line : Line) : list Token :=
  let '(attr_, out) :=
    renderLoop brokenBold defAttr x line (Z.to_nat width) 0 defAttr [] in
  if attr_ =? defAttr then out else out ++ [SpanClose].

(** The nesting depth after [tokens], starting from depth [d]; [None] when a
    [</span>] closes nothing. *)
Fixpoint finalDepth (tokens : list Token) (d : nat) : option nat :=
  match tokens with
  | [] => Some d
  | SpanClose :: rest =>
      match d with
      | O => None
      | S d' => finalDepth rest d'
      end
  | Text _ :: rest => finalDepth rest d
  | _ :: rest => finalDepth rest (S d)
  end.

Definition wellNested (tokens : list Token) : Prop := finalDepth tokens 0 = Some 0%nat.

(** The depth that goes with a running attribute: a span is open exactly
    when the attribute is not the default. *)
Definition depthOf (defAttr attr_ : Z) : nat := if attr_ =? defAttr then 0%nat else 1%nat.

Definition isText (tok : Token) : bool :=
  match tok with
  | Text _ => true
  | _ => false
  end.

Definition cellText (c : Cell) : Token := Text (escape (ch c)).

End Compositor.

(** ** The scheduler under a sequence of events *)
Module Scheduler.
Import Renderer.

(** What happens to a renderer: a call of [queueRefresh], or an animation
    frame of the browser.  The browser runs the callback only if one was
    requested. *)
Inductive Event : Type :=
| QueueRefresh (start_ end__ : Z)
| AnimationFrame (term : Terminal).

Fixpoint runEvents (events : list Event) (r : t) : Result t * list Effect :=
  match events with
  | [] => (Returns r, [])
  | QueueRefresh start_ end__ :: rest =>
      let '(r', effects) := queueRefresh r start_ end__ in
      let '(res, effects') := runEvents rest r' in
      (res, effects ++ effects')
  | AnimationFrame term :: rest =>
      if _refreshAnimationFrame r
      then match _refreshLoop term r with
           | (Returns r', effects) =>
               let '(res, effects') := runEvents rest r' in
               (res, effects ++ effects')
           | (Throws r', effects) => (Throws r', effects)
           end
      else runEvents rest r
  end.

(** A frame is requested exactly while ranges are queued. *)
Definition consistent (r : t) : Prop :=
  _refreshAnimationFrame r = match _refreshRowsQueue r with [] => false | _ => true end.

Definition isRefresh (e : Effect) : bool :=
  match e with
  | Refresh _ _ => true
  | RequestAnimationFrame => false
  end.

End Scheduler.

(** ** The row loop of [_refresh]

    The [while (renderCount <= rowsToRender)] loop of [_refresh], around the
    column loop of [Compositor].  The rows of the DOM are the list of their
    [innerHTML]; detaching and re-attaching the row container and the
    [refresh] event are left out. *)
Module Refresh.
Import Renderer Compositor.

Definition Markup : Type := list Token.

(** What [_refresh] reads of [this._terminal]; [cursorState] and
    [cursorHidden] by their truth value, [children] by the markup of each
    row. *)
Record Terminal : Type := mkTerminal {
  cols : Z;
  rows : Z;
  ydisp : Z;
  ybase : Z;
  x : Z;
  y : Z;
  cursorState : bool;
  cursorHidden : bool;
  defAttr : Z;
  lines : LineWrap.Buffer;
  children : list Markup
}.











End Refresh.

Module RefreshExamples.
Import Refresh.






End RefreshExamples.

(** * Properties of the reflow index *)
Module LineWrapFacts.
Import LineWrap.

(** [ceilDiv a b] is the least integer whose multiple by [b] reaches [a]. *)
Lemma ceilDiv_spec (a b : Z) :
  0 < b -> a <= ceilDiv a b * b /\ (ceilDiv a b - 1) * b < a.
Proof.
  intros Hb. unfold ceilDiv.
  pose proof (Z.div_mod (- a) b ltac:(lia)) as Hdm.
  pose proof (Z.mod_pos_bound (- a) b Hb) as Hm.
  nia.
Qed.

Lemma ceilDiv_spec_witness : 25 <= ceilDiv 25 4 * 4 /\ (ceilDiv 25 4 - 1) * 4 < 25.
Proof. apply ceilDiv_spec. lia. Defined.

Lemma newRowCountInLine_pos (n : option Z) (w : Z) : 1 <= newRowCountInLine n w.
Proof.
  destruct n as [n|]; unfold newRowCountInLine; [|lia].
  destruct (0 <? ceilDiv n w) eqn:E; [apply Z.ltb_lt in E|]; lia.
Qed.

Lemma newRowCountInLine_rowsFor (n : option Z) (w : Z) :
  newRowCountInLine n w = Reflow.rowsFor n w.
Proof.
  destruct n as [n|]; unfold newRowCountInLine, Reflow.rowsFor; [|reflexivity].
  destruct (0 <? ceilDiv n w) eqn:E;
    [apply Z.ltb_lt in E | apply Z.ltb_ge in E]; lia.
Qed.

Lemma fold_numRows (l : list RowIndex) (a : Z) :
  fold_left (fun count lineStats => count + numRows lineStats) l a = a + sumRows l.
Proof.
  revert a. induction l as [|r l IH]; intros a; simpl; [lia|].
  rewrite IH. lia.
Qed.

Lemma rowCount_sumRows (st : t) : rowCount st = sumRows (items st).
Proof. unfold rowCount. rewrite fold_numRows. lia. Qed.

Lemma sumRows_app (l1 l2 : list RowIndex) :
  sumRows (l1 ++ l2) = sumRows l1 + sumRows l2.
Proof. induction l1 as [|r l1 IH]; simpl; lia. Qed.

Lemma contiguousFrom_sumRows_nonneg (l : list RowIndex) (lo : Z) :
  contiguousFrom lo l -> 0 <= sumRows l.
Proof.
  revert lo. induction l as [|r l IH]; intros lo H; simpl in *; [lia|].
  destruct H as (_ & Hle & Hrest). apply IH in Hrest. unfold numRows. lia.
Qed.

Lemma contiguousFrom_app (l1 l2 : list RowIndex) (lo : Z) :
  contiguousFrom lo (l1 ++ l2) <->
  contiguousFrom lo l1 /\ contiguousFrom (lo + sumRows l1) l2.
Proof.
  revert lo. induction l1 as [|r l1 IH]; intros lo; simpl.
  - rewrite Z.add_0_r. tauto.
  - rewrite IH. unfold numRows.
    split.
    + intros (Hs & Hle & H1 & H2). repeat split; auto.
      replace (lo + (endIndex r - startIndex r + 1 + sumRows l1))
        with (endIndex r + 1 + sumRows l1) by lia. exact H2.
    + intros ((Hs & Hle & H1) & H2). repeat split; auto.
      replace (endIndex r + 1 + sumRows l1)
        with (lo + (endIndex r - startIndex r + 1 + sumRows l1)) by lia. exact H2.
Qed.

Lemma contiguousFrom_adjacent (l : list RowIndex) (lo : Z) :
  contiguousFrom lo l ->
  forall i r1 r2,
    nth_error l i = Some r1 -> nth_error l (S i) = Some r2 ->
    startIndex r2 = endIndex r1 + 1.
Proof.
  revert lo. induction l as [|r l IH]; intros lo H i r1 r2 H1 H2.
  - destruct i; discriminate.
  - destruct H as (_ & _ & Hrest). destruct i as [|i].
    + simpl in H1. injection H1 as ->.
      destruct l as [|r' l]; simpl in H2; [discriminate|].
      injection H2 as ->. simpl in Hrest. tauto.
    + simpl in H1. eapply IH; eauto.
Qed.

Lemma contiguousFrom_cover (l : list RowIndex) (lo row : Z) :
  contiguousFrom lo l ->
  List.length (List.filter (covers row) l)
  = if (lo <=? row) && (row <? lo + sumRows l) then 1%nat else 0%nat.
Proof.
  revert lo. induction l as [|r l IH]; intros lo H; simpl.
  - destruct (lo <=? row) eqn:E1, (row <? lo + 0) eqn:E2; simpl; try reflexivity.
    apply Z.leb_le in E1. apply Z.ltb_lt in E2. lia.
  - destruct H as (Hs & Hle & Hrest).
    pose proof (contiguousFrom_sumRows_nonneg _ _ Hrest) as Hnn.
    specialize (IH _ Hrest). unfold covers at 1. unfold numRows.
    destruct (row >=? startIndex r) eqn:Ea, (row <=? endIndex r) eqn:Eb; simpl;
      rewrite ?IH;
      destruct (endIndex r + 1 <=? row) eqn:E1, (row <? endIndex r + 1 + sumRows l) eqn:E2;
      destruct (lo <=? row) eqn:E3,
               (row <? lo + (endIndex r - startIndex r + 1 + sumRows l)) eqn:E4;
      simpl; try reflexivity; exfalso;
      rewrite ?Z.geb_leb in *;
      rewrite ?Z.leb_le, ?Z.leb_gt, ?Z.ltb_lt, ?Z.ltb_ge in *; lia.
Qed.

Lemma contiguous_partitions (st : t) : contiguous st -> partitions st.
Proof.
  intros H row. unfold coverCount, CircularList.filter.
  unfold contiguous, items in H.
  rewrite (contiguousFrom_cover _ 0 row H), rowCount_sumRows. reflexivity.
Qed.

Lemma contiguous_adjacent (st : t) : contiguous st -> adjacent st.
Proof. intros H i r1 r2. eapply contiguousFrom_adjacent; eauto. Qed.

Lemma changeLoop_contiguous lines w cp (rows : list RowIndex) :
  orphansSpan lines rows ->
  forall prev fc,
    contiguousFrom (Reflow.layoutStart prev rows) (changeLoop lines w cp prev fc rows).
Proof.
  induction rows as [|r rows IH]; intros Horph prev fc; simpl; [exact I|].
  assert (Horph' : orphansSpan lines rows).
  { intros x Hx. apply Horph. right. exact Hx. }
  destruct (CircularList.get lines (lineIndex r)) eqn:Eg.
  - destruct (lineLength r) as [samples|]; [|destruct fc]; simpl;
      (split; [|split];
       [ destruct prev; reflexivity
       | match goal with |- context [newRowCountInLine ?n w] =>
           pose proof (newRowCountInLine_pos n w) end; lia
       | match goal with |- context [changeLoop _ _ _ (Some ?p) ?f rows] =>
           apply (IH Horph' (Some p) f) end ]).
  - simpl. split; [|split].
    + destruct prev; reflexivity.
    + specialize (Horph r (or_introl eq_refl) Eg). lia.
    + match goal with |- context [changeLoop _ _ _ (Some ?p) ?f rows] =>
        apply (IH Horph' (Some p) f) end.
Qed.

Lemma changeLoop_length lines w cp (rows : list RowIndex) :
  forall prev fc,
    List.length (changeLoop lines w cp prev fc rows) = List.length rows.
Proof.
  induction rows as [|r rows IH]; intros prev fc; simpl; [reflexivity|].
  destruct (CircularList.get lines (lineIndex r));
    [destruct (lineLength r); [|destruct fc]|]; simpl; rewrite IH; reflexivity.
Qed.

Lemma changeLoop_indexedFrom lines w cp (rows : list RowIndex) :
  forall prev fc b,
    indexedFrom b rows -> indexedFrom b (changeLoop lines w cp prev fc rows).
Proof.
  induction rows as [|r rows IH]; intros prev fc b H; simpl; [exact I|].
  destruct H as (Hb & Hrest).
  destruct (CircularList.get lines (lineIndex r));
    [destruct (lineLength r); [|destruct fc]|]; simpl; split; auto.
Qed.

(** A second pass of the loop over its own output changes nothing. *)
Lemma changeLoop_idempotent lines w cp (rows : list RowIndex) :
  forall prev fc,
    changeLoop lines w cp prev fc (changeLoop lines w cp prev fc rows)
    = changeLoop lines w cp prev fc rows.
Proof.
  induction rows as [|r rows IH]; intros prev fc; simpl; [reflexivity|].
  destruct (CircularList.get lines (lineIndex r)) eqn:Eg.
  - destruct (lineLength r) as [samples|] eqn:El; [|destruct fc]; simpl;
      rewrite Eg; simpl.
    + destruct prev as [p|]; simpl; rewrite IH; reflexivity.
    + destruct prev as [p|]; simpl; rewrite IH; reflexivity.
    + (* the first uncached line: the second pass starts with the flag
         lowered again, and raises it at the same entry *)
      destruct prev as [p|]; simpl; rewrite IH; reflexivity.
  - simpl. rewrite Eg. simpl.
    destruct prev as [p|]; simpl;
      match goal with |- ?a :: _ = ?b :: _ => replace a with b by (f_equal; lia) end;
      rewrite IH; reflexivity.
Qed.

(** *** The rows each entry receives *)

Lemma changeLoop_rows lines w cp (rows : list RowIndex) :
  forall prev before i r,
    nth_error rows i = Some r ->
    exists r',
      nth_error
        (changeLoop lines w cp prev (existsb (Reflow.usesCursor lines) before) rows) i
      = Some r'
      /\ lineIndex r' = lineIndex r
      /\ lineLength r' = lineLength r
      /\ numRows r' = Reflow.rowsAssigned lines w cp (before ++ firstn i rows) r.
Proof.
  induction rows as [|r0 rows IH]; intros prev before i r Hi.
  - destruct i; discriminate.
  - destruct i as [|i]; simpl in Hi.
    + injection Hi as ->. rewrite app_nil_r.
      unfold Reflow.rowsAssigned, Reflow.lengthUsed. simpl.
      destruct (CircularList.get lines (lineIndex r)) eqn:Eg.
      * destruct (lineLength r) as [samples|] eqn:El;
          [|destruct (existsb (Reflow.usesCursor lines) before)];
          eexists; (split; [reflexivity|]); simpl; rewrite ?El;
          (repeat split); unfold numRows; simpl;
          rewrite <- newRowCountInLine_rowsFor; lia.
      * eexists; (split; [reflexivity|]); simpl.
        repeat split. unfold numRows; simpl. lia.
    + simpl.
      replace (before ++ r0 :: firstn i rows) with ((before ++ [r0]) ++ firstn i rows)
        by (rewrite <- app_assoc; reflexivity).
      pose proof (existsb_app (Reflow.usesCursor lines) before [r0]) as Hex.
      simpl in Hex. rewrite orb_false_r in Hex.
      unfold Reflow.usesCursor in Hex at 3.
      destruct (CircularList.get lines (lineIndex r0)) eqn:Eg.
      * destruct (lineLength r0) as [samples|] eqn:El.
        -- rewrite orb_false_r in Hex. rewrite <- Hex. apply IH. exact Hi.
        -- rewrite orb_true_r in Hex.
           destruct (existsb (Reflow.usesCursor lines) before);
             rewrite <- Hex; apply IH; exact Hi.
      * rewrite orb_false_r in Hex. rewrite <- Hex. apply IH. exact Hi.
Qed.

(** Rewrites the total of the remaining entries with the induction
    hypothesis [IH], the flag being brought to the form [Hex] gives it. *)
Ltac use_total IH Hex before r0 rows :=
  match goal with
  | |- context [changeLoop _ _ _ ?p _ rows] =>
      let IH' := fresh "IH" in
      pose proof (IH p (before ++ [r0])) as IH'; rewrite Hex in IH'; rewrite IH'
  end.

Lemma changeLoop_total lines w cp (rows : list RowIndex) :
  forall prev before,
    sumRows (changeLoop lines w cp prev (existsb (Reflow.usesCursor lines) before) rows)
    = Reflow.totalAssigned lines w cp before rows.
Proof.
  induction rows as [|r0 rows IH]; intros prev before; [reflexivity|].
  pose proof (existsb_app (Reflow.usesCursor lines) before [r0]) as Hex.
  simpl in Hex. rewrite orb_false_r in Hex.
  unfold Reflow.usesCursor in Hex at 3.
  cbn [changeLoop Reflow.totalAssigned].
  unfold Reflow.rowsAssigned, Reflow.lengthUsed.
  destruct (CircularList.get lines (lineIndex r0)) eqn:Eg.
  - destruct (lineLength r0) as [samples|] eqn:El.
    + rewrite orb_false_r in Hex. cbn [sumRows].
      use_total IH Hex before r0 rows.
      unfold numRows at 1. cbn [startIndex endIndex].
      rewrite <- newRowCountInLine_rowsFor. lia.
    + rewrite orb_true_r in Hex.
      destruct (existsb (Reflow.usesCursor lines) before); cbn [sumRows];
        use_total IH Hex before r0 rows;
        unfold numRows at 1; cbn [startIndex endIndex];
        rewrite <- newRowCountInLine_rowsFor; lia.
  - rewrite orb_false_r in Hex. cbn [sumRows].
    use_total IH Hex before r0 rows.
    unfold numRows at 1 2. cbn [startIndex endIndex]. lia.
Qed.

(** *** Growing one line *)

Lemma covering_split (l : list RowIndex) (lo row : Z) :
  contiguousFrom lo l -> lo <= row < lo + sumRows l ->
  exists l1 r l2,
    l = l1 ++ r :: l2 /\ covers row r = true
    /\ Forall (fun x => covers row x = false) l1.
Proof.
  revert lo. induction l as [|a l IH]; intros lo H Hrow; simpl in *; [lia|].
  destruct H as (Hs & Hle & Hrest).
  destruct (covers row a) eqn:Ec.
  - exists [], a, l. repeat split; auto.
  - assert (Hgt : endIndex a < row).
    { unfold covers in Ec. apply andb_false_iff in Ec.
      rewrite Z.geb_leb, Z.leb_gt, Z.leb_gt in Ec. lia. }
    destruct (IH _ Hrest) as (l1 & r & l2 & -> & Hc & Hall).
    { unfold numRows in Hrow. lia. }
    exists (a :: l1), r, l2. repeat split; auto.
Qed.

Section FirstMatch.
Context {A : Type} (p : A -> bool) (f : A -> A).

Lemma filter_first (l1 l2 : list A) (r : A) :
  Forall (fun x => p x = false) l1 -> p r = true ->
  hd_error (List.filter p (l1 ++ r :: l2)) = Some r.
Proof.
  induction 1 as [|x l1 Hx _ IH]; intros Hr; simpl.
  - rewrite Hr. reflexivity.
  - rewrite Hx. auto.
Qed.

Lemma alterFirst_split (l1 l2 : list A) (r : A) :
  Forall (fun x => p x = false) l1 -> p r = true ->
  CircularList.alterFirst p f (l1 ++ r :: l2) = l1 ++ f r :: l2.
Proof.
  induction 1 as [|x l1 Hx _ IH]; intros Hr; simpl.
  - rewrite Hr. reflexivity.
  - rewrite Hx, IH; auto.
Qed.

End FirstMatch.

Lemma indexedFrom_app (l1 l2 : list RowIndex) (b : Z) :
  indexedFrom b (l1 ++ l2) <->
  indexedFrom b l1 /\ indexedFrom (b + Z.of_nat (List.length l1)) l2.
Proof.
  revert b. induction l1 as [|r l1 IH]; intros b; simpl List.length; simpl app.
  - rewrite Z.add_0_r. simpl. tauto.
  - simpl. rewrite IH.
    replace (b + 1 + Z.of_nat (List.length l1))
      with (b + Z.of_nat (S (List.length l1))) by lia.
    tauto.
Qed.

Lemma indexedFrom_below (l : list RowIndex) (b : Z) :
  indexedFrom b l -> Forall (fun x => lineIndex x < b + Z.of_nat (List.length l)) l.
Proof.
  revert b. induction l as [|r l IH]; intros b H; constructor.
  - destruct H as (-> & _). simpl List.length. lia.
  - destruct H as (_ & H). apply IH in H.
    eapply Forall_impl; [|exact H]. intros x Hx. simpl in Hx |- *.
    simpl List.length. lia.
Qed.

Lemma indexedFrom_map (f : RowIndex -> RowIndex) (l : list RowIndex) (b : Z) :
  (forall x, lineIndex (f x) = lineIndex x) ->
  indexedFrom b l -> indexedFrom b (map f l).
Proof.
  intros Hf. revert b. induction l as [|r l IH]; intros b H; simpl; [exact I|].
  destruct H as (Hb & H). rewrite Hf. auto.
Qed.

Lemma contiguousFrom_shift (l : list RowIndex) (lo : Z) :
  contiguousFrom lo l -> contiguousFrom (lo + 1) (map shiftRow l).
Proof.
  revert lo. induction l as [|r l IH]; intros lo H; simpl; [exact I|].
  destruct H as (Hs & Hle & H). split; [lia|]. split; [lia|]. apply IH. exact H.
Qed.

Lemma sumRows_shift (l : list RowIndex) : sumRows (map shiftRow l) = sumRows l.
Proof.
  induction l as [|r l IH]; simpl; [reflexivity|].
  rewrite IH. unfold numRows. simpl. lia.
Qed.

(** On a list in which position and [lineIndex] agree, the loop of
    [addRowToLine] shifts exactly the entries from position [i] on. *)
Lemma shiftLoop_indexed (l2 : list RowIndex) :
  forall pre,
    indexedFrom 0 (pre ++ l2) ->
    shiftLoop (List.length l2) (Z.of_nat (List.length pre)) (pre ++ l2)
    = pre ++ map shiftRow l2.
Proof.
  induction l2 as [|x l2 IH]; intros pre H; simpl; [reflexivity|].
  pose proof H as H'. apply indexedFrom_app in H'. destruct H' as (Hpre & Hx & Hl2).
  rewrite (alterFirst_split (hasLineIndex (Z.of_nat (List.length pre))) shiftRow).
  - replace (pre ++ shiftRow x :: l2) with ((pre ++ [shiftRow x]) ++ l2)
      by (rewrite <- app_assoc; reflexivity).
    replace (Z.of_nat (List.length pre) + 1)
      with (Z.of_nat (List.length (pre ++ [shiftRow x])))
      by (rewrite length_app; simpl; lia).
    rewrite IH.
    + rewrite <- app_assoc. reflexivity.
    + rewrite <- app_assoc. simpl. apply indexedFrom_app. split; [exact Hpre|].
      simpl. split; [exact Hx | exact Hl2].
  - apply indexedFrom_below in Hpre.
    eapply Forall_impl; [|exact Hpre]. intros y Hy. simpl in Hy.
    unfold hasLineIndex. apply Z.eqb_neq. lia.
  - unfold hasLineIndex. apply Z.eqb_eq. lia.
Qed.

Lemma addRowToLine_shape (st : t) (row : Z) :
  indexed st -> contiguous st -> 0 <= row < rowCount st ->
  exists l1 r l2,
    items st = l1 ++ r :: l2 /\ covers row r = true
    /\ addRowToLine st row
       = Returns (withItems st (l1 ++ growRow r :: map shiftRow l2)).
Proof.
  intros Hidx Hcont Hrow. rewrite rowCount_sumRows in Hrow.
  destruct (covering_split _ 0 row Hcont ltac:(lia)) as (l1 & r & l2 & Hl & Hc & Hall).
  exists l1, r, l2. split; [exact Hl|]. split; [exact Hc|].
  unfold addRowToLine, getRowIndex, CircularList.filter.
  unfold indexed in Hidx. unfold items in *. rewrite Hl in *.
  rewrite (filter_first _ l1 l2 r Hall Hc).
  rewrite (alterFirst_split _ growRow l1 l2 r Hall Hc).
  pose proof Hidx as Hi. apply indexedFrom_app in Hi. destruct Hi as (H1 & Hr & H2).
  simpl in Hr.
  replace (Z.to_nat (CircularList.length st - (lineIndex r + 1))) with (List.length l2).
  2:{ unfold CircularList.length. rewrite Hl, length_app. simpl. lia. }
  replace (l1 ++ growRow r :: l2) with ((l1 ++ [growRow r]) ++ l2)
    by (rewrite <- app_assoc; reflexivity).
  replace (lineIndex r + 1) with (Z.of_nat (List.length (l1 ++ [growRow r])))
    by (rewrite length_app; simpl; lia).
  rewrite shiftLoop_indexed.
  - rewrite <- app_assoc. reflexivity.
  - rewrite <- app_assoc. simpl. apply indexedFrom_app. split; [exact H1|].
    simpl. split; [exact Hr | exact H2].
Qed.

(** *** Point queries *)

Lemma getRowIndex_sound (st : t) (row : Z) (r : RowIndex) :
  getRowIndex st row = Some r ->
  In r (items st) /\ startIndex r <= row <= endIndex r.
Proof.
  unfold getRowIndex, CircularList.filter, items. intros H.
  assert (Hin : In r (List.filter (covers row) (CircularList.items st))).
  { destruct (List.filter (covers row) (CircularList.items st)); [discriminate|].
    injection H as ->. left. reflexivity. }
  apply filter_In in Hin. destruct Hin as (Hin & Hc). split; [exact Hin|].
  unfold covers in Hc. apply andb_true_iff in Hc.
  rewrite Z.geb_leb, !Z.leb_le in Hc. lia.
Qed.

Lemma getRowIndex_none (st : t) (row : Z) :
  getRowIndex st row = None <->
  forall r, In r (items st) -> ~ (startIndex r <= row <= endIndex r).
Proof.
  unfold getRowIndex, CircularList.filter, items. split.
  - intros H r Hin Hc.
    assert (Hf : In r (List.filter (covers row) (CircularList.items st))).
    { apply filter_In. split; [exact Hin|]. unfold covers.
      apply andb_true_iff. rewrite Z.geb_leb, !Z.leb_le. lia. }
    destruct (List.filter (covers row) (CircularList.items st)); [contradiction|discriminate].
  - intros H.
    destruct (List.filter (covers row) (CircularList.items st)) as [|r l] eqn:E;
      [reflexivity|].
    assert (Hf : In r (List.filter (covers row) (CircularList.items st)))
      by (rewrite E; left; reflexivity).
    apply filter_In in Hf. destruct Hf as (Hin & Hc). exfalso. apply (H r Hin).
    unfold covers in Hc. apply andb_true_iff in Hc.
    rewrite Z.geb_leb, !Z.leb_le in Hc. lia.
Qed.

(** *** Trimming from the oldest end *)

Lemma get_after (done todo : list RowIndex) (mx : Z) :
  CircularList.get (CircularList.mk (done ++ todo) mx) (Z.of_nat (List.length done))
  = hd_error todo.
Proof.
  unfold CircularList.get, CircularList.length. simpl.
  rewrite Nat2Z.id, length_app.
  destruct todo as [|x todo]; simpl.
  - replace (Z.of_nat (List.length done) <? Z.of_nat (List.length done + 0)) with false
      by (symmetry; apply Z.ltb_ge; lia).
    rewrite andb_false_r. reflexivity.
  - replace (0 <=? Z.of_nat (List.length done)) with true
      by (symmetry; apply Z.leb_le; lia).
    replace (Z.of_nat (List.length done) <? Z.of_nat (List.length done + S (List.length todo)))
      with true by (symmetry; apply Z.ltb_lt; lia).
    simpl. rewrite nth_error_app2, Nat.sub_diag by lia. reflexivity.
Qed.

Lemma alterAt_after {A : Type} (f : A -> A) (done : list A) (x : A) (todo : list A) :
  CircularList.alterAt (List.length done) f (done ++ x :: todo) = done ++ f x :: todo.
Proof. induction done as [|d done IH]; simpl; [reflexivity|]. rewrite IH. reflexivity. Qed.

(** The loop of [trimStart] with [done] already adjusted and [todo] ahead. *)
Lemma trimLoop_run (count mx : Z) (n : nat) :
  forall done todo,
    trimLoop n (Z.of_nat (List.length done)) count (CircularList.mk (done ++ todo) mx)
    = if (n <=? List.length todo)%nat
      then Returns (CircularList.mk
                      (done ++ map (lowerRow count) (firstn n todo) ++ skipn n todo) mx)
      else Throws (CircularList.mk (done ++ map (lowerRow count) todo) mx).
Proof.
  induction n as [|n IH]; intros done todo.
  - reflexivity.
  - cbn [trimLoop]. rewrite get_after.
    destruct todo as [|x todo]; cbn [hd_error].
    + reflexivity.
    + rewrite Nat2Z.id. unfold withItems, items. cbn [CircularList.items CircularList.maxLength].
      rewrite alterAt_after.
      replace (done ++ lowerRow count x :: todo)
        with ((done ++ [lowerRow count x]) ++ todo)
        by (rewrite <- app_assoc; reflexivity).
      replace (Z.of_nat (List.length done) + 1)
        with (Z.of_nat (List.length (done ++ [lowerRow count x])))
        by (rewrite length_app; simpl; lia).
      rewrite IH. cbn [List.length firstn skipn map].
      change (S n <=? S (List.length todo))%nat with (n <=? List.length todo)%nat.
      rewrite <- !app_assoc. reflexivity.
Qed.

Lemma trimStart_run (st : t) (count : Z) :
  let kept := skipn (Z.to_nat count) (items st) in
  let n := Z.to_nat (CircularList.maxLength st) in
  trimStart st count
  = if (n <=? List.length kept)%nat
    then Returns (withItems st (map (lowerRow count) (firstn n kept) ++ skipn n kept))
    else Throws (withItems st (map (lowerRow count) kept)).
Proof.
  unfold trimStart, CircularList.trimStart. cbn [CircularList.maxLength].
  exact (trimLoop_run count (CircularList.maxLength st)
           (Z.to_nat (CircularList.maxLength st)) [] _).
Qed.

(** *** The layout invariant *)

Lemma linked_adjacent (l : list RowIndex) :
  linked l <->
  forall i r1 r2,
    nth_error l i = Some r1 -> nth_error l (S i) = Some r2 ->
    startIndex r2 = endIndex r1 + 1.
Proof.
  induction l as [|a l IH]; cbn [linked].
  - split; [intros _ i r1 r2 H; destruct i; discriminate | auto].
  - destruct l as [|b l].
    + split; [|auto]. intros _ [|i] r1 r2 H1 H2; simpl in *; discriminate.
    + rewrite IH. split.
      * intros (Hab & Hrest) [|i] r1 r2 H1 H2.
        -- simpl in H1, H2. injection H1 as <-. injection H2 as <-. exact Hab.
        -- exact (Hrest i r1 r2 H1 H2).
      * intros H. split.
        -- exact (H 0%nat a b eq_refl eq_refl).
        -- intros i r1 r2 H1 H2. exact (H (S i) r1 r2 H1 H2).
Qed.

(** Whatever the state, the loop of [changeLineLength] starts every entry
    after the first on the row that follows its predecessor. *)
Lemma changeLoop_linked lines w cp (rows : list RowIndex) :
  forall p fc, linked (p :: changeLoop lines w cp (Some p) fc rows).
Proof.
  induction rows as [|r rows IH]; intros p fc; [exact I|].
  cbn [changeLoop].
  destruct (CircularList.get lines (lineIndex r));
    [destruct (lineLength r); [|destruct fc]|]; cbn [linked];
    (split; [reflexivity | apply IH]).
Qed.

Lemma changeLoop_linked_first lines w cp (rows : list RowIndex) (fc : bool) :
  linked (changeLoop lines w cp None fc rows).
Proof.
  destruct rows as [|r rows]; [exact I|]. cbn [changeLoop].
  destruct (CircularList.get lines (lineIndex r));
    [destruct (lineLength r); [|destruct fc]|];
    match goal with |- linked (?p :: _) => apply (changeLoop_linked lines w cp rows p) end.
Qed.

Lemma first_match_split {A : Type} (p : A -> bool) (l : list A) (r : A) :
  hd_error (List.filter p l) = Some r ->
  exists l1 l2,
    l = l1 ++ r :: l2 /\ Forall (fun x => p x = false) l1 /\ p r = true.
Proof.
  induction l as [|a l IH]; simpl; [discriminate|].
  destruct (p a) eqn:E; simpl.
  - intros H. injection H as <-. exists [], l. repeat split; auto.
  - intros H. destruct (IH H) as (l1 & l2 & -> & Hall & Hr).
    exists (a :: l1), l2. repeat split; auto.
Qed.

(** What [addRowToLine] does on a list in which position and [lineIndex]
    agree: the first entry on the row grows, the entries behind it shift. *)
Lemma addRowToLine_indexed (st : t) (row : Z) (r : RowIndex) :
  indexed st -> getRowIndex st row = Some r ->
  exists l1 l2,
    items st = l1 ++ r :: l2
    /\ addRowToLine st row
       = Returns (withItems st (l1 ++ growRow r :: map shiftRow l2)).
Proof.
  intros Hidx Hget. unfold addRowToLine. rewrite Hget.
  unfold getRowIndex, CircularList.filter in Hget.
  destruct (first_match_split _ _ _ Hget) as (l1 & l2 & Hl & Hall & Hc).
  exists l1, l2. split; [exact Hl|].
  unfold indexed in Hidx. unfold items in *. rewrite Hl in *.
  rewrite (alterFirst_split _ growRow l1 l2 r Hall Hc).
  pose proof Hidx as Hi. apply indexedFrom_app in Hi. destruct Hi as (H1 & Hr & H2).
  simpl in Hr.
  replace (Z.to_nat (CircularList.length st - (lineIndex r + 1))) with (List.length l2).
  2:{ unfold CircularList.length. rewrite Hl, length_app. simpl. lia. }
  replace (l1 ++ growRow r :: l2) with ((l1 ++ [growRow r]) ++ l2)
    by (rewrite <- app_assoc; reflexivity).
  replace (lineIndex r + 1) with (Z.of_nat (List.length (l1 ++ [growRow r])))
    by (rewrite length_app; simpl; lia).
  rewrite shiftLoop_indexed.
  - rewrite <- app_assoc. reflexivity.
  - rewrite <- app_assoc. simpl. apply indexedFrom_app. split; [exact H1|].
    simpl. split; [exact Hr | exact H2].
Qed.

Lemma linked_shift (l : list RowIndex) : linked l -> linked (map shiftRow l).
Proof.
  induction l as [|a l IH]; [auto|]. cbn [linked map].
  destruct l as [|b l]; [auto|]. cbn [map]. intros (Hab & Hrest).
  split; [simpl; lia | apply IH; exact Hrest].
Qed.

Lemma linked_grow_shift (l1 l2 : list RowIndex) (r : RowIndex) :
  linked (l1 ++ r :: l2) -> linked (l1 ++ growRow r :: map shiftRow l2).
Proof.
  induction l1 as [|a l1 IH]; cbn [app].
  - cbn [linked]. destruct l2 as [|b l2]; [auto|]. cbn [map].
    intros (Hrb & Hrest). split; [simpl; lia|].
    apply (linked_shift (b :: l2)). exact Hrest.
  - intros H. cbn [linked] in H |- *.
    destruct l1 as [|b l1]; cbn [app] in *.
    + destruct H as (Har & Hrest). split; [exact Har | apply IH; exact Hrest].
    + destruct H as (Hab & Hrest). split; [exact Hab | apply IH; exact Hrest].
Qed.

(** C1 (as amended).  After [changeLineLength], on every state, every entry
    starts on the row after the end of its predecessor; the first entry stays
    where it starts, so the spans partition [0, rowCount) when the first entry
    starts at row 0 (and the entries without a buffer line span at least one
    row).  [addRowToLine], on a state in which every entry's [lineIndex] is
    its position, keeps that and keeps the adjacency of a state that has it,
    whatever the row (it returns, with [rowCount] one larger, when an entry
    covers the row, and throws before any change otherwise); it keeps the
    partition of [0, rowCount) of a state laid out from row 0. *)
Theorem layout_after_recompute_and_growth :
  (forall (st : t) (lines : Buffer) (width : Z) (cursorPos : option Z),
      1 <= width ->
      adjacent (changeLineLength st lines width cursorPos))
  /\
  (forall (st : t) (lines : Buffer) (width : Z) (cursorPos : option Z),
      1 <= width -> startsAtZero st -> orphansSpan lines (items st) ->
      let st' := changeLineLength st lines width cursorPos in
      contiguous st' /\ partitions st' /\ (indexed st -> indexed st'))
  /\
  (forall (st : t) (physicalRow : Z),
      indexed st -> adjacent st ->
      indexed (stateOf (addRowToLine st physicalRow))
      /\ adjacent (stateOf (addRowToLine st physicalRow))
      /\ ((exists r, In r (items st) /\ startIndex r <= physicalRow <= endIndex r) ->
          exists st',
            addRowToLine st physicalRow = Returns st'
            /\ rowCount st' = rowCount st + 1))
  /\
  (forall (st : t) (physicalRow : Z),
      indexed st -> contiguous st -> 0 <= physicalRow < rowCount st ->
      exists st',
        addRowToLine st physicalRow = Returns st'
        /\ indexed st' /\ contiguous st' /\ adjacent st' /\ partitions st'
        /\ rowCount st' = rowCount st + 1).
Proof.
  split; [|split; [|split]].
  - intros st lines width cursorPos _.
    unfold adjacent. apply (proj1 (linked_adjacent _)).
    unfold changeLineLength, withItems, items.
    cbn [CircularList.items]. apply changeLoop_linked_first.
  - intros st lines width cursorPos _ Hzero Horph st'.
    assert (Hc : contiguous st').
    { unfold contiguous, st', changeLineLength, withItems, items.
      cbn [CircularList.items].
      pose proof (changeLoop_contiguous lines width cursorPos _ Horph None false) as H.
      unfold Reflow.layoutStart, items in H.
      unfold startsAtZero, items in Hzero.
      destruct (CircularList.items st) as [|r l] eqn:E; [exact I|].
      rewrite (Hzero r eq_refl) in H. exact H. }
    split; [exact Hc|]. split; [apply contiguous_partitions; exact Hc|].
    intros Hi. apply changeLoop_indexedFrom. exact Hi.
  - intros st row Hidx Hadj.
    destruct (getRowIndex st row) as [r|] eqn:Hget.
    2:{ unfold addRowToLine. rewrite Hget. cbn [stateOf].
        split; [exact Hidx|]. split; [exact Hadj|].
        intros (r0 & Hin & Hrow). exfalso.
        exact (proj1 (getRowIndex_none st row) Hget r0 Hin Hrow). }
    destruct (addRowToLine_indexed st row r Hidx Hget) as (l1 & l2 & Hl & Hadd).
    rewrite Hadd. cbn [stateOf].
    unfold indexed, adjacent in *. unfold withItems, items in *.
    cbn [CircularList.items]. rewrite Hl in Hidx, Hadj.
    apply indexedFrom_app in Hidx. destruct Hidx as (Hi1 & Hir & Hi2).
    split; [|split].
    + apply indexedFrom_app. split; [exact Hi1|]. split; [exact Hir|].
      apply indexedFrom_map; [reflexivity | exact Hi2].
    + apply (proj1 (linked_adjacent _)), linked_grow_shift.
      apply (proj2 (linked_adjacent _)). exact Hadj.
    + intros _. eexists. split; [reflexivity|].
      rewrite !rowCount_sumRows. unfold items. cbn [CircularList.items].
      rewrite Hl, !sumRows_app. cbn [sumRows]. rewrite sumRows_shift.
      unfold numRows. simpl. lia.
  - intros st row Hidx Hcont Hrow.
    destruct (addRowToLine_shape st row Hidx Hcont Hrow) as (l1 & r & l2 & Hl & Hcov & Hadd).
    exists (withItems st (l1 ++ growRow r :: map shiftRow l2)).
    split; [exact Hadd|].
    unfold indexed, contiguous in *. unfold items in Hl. unfold items in Hidx, Hcont.
    rewrite Hl in Hidx, Hcont.
    apply indexedFrom_app in Hidx. destruct Hidx as (Hi1 & Hir & Hi2).
    apply contiguousFrom_app in Hcont. destruct Hcont as (Hc1 & Hcs & Hcle & Hc2).
    assert (Hc' : contiguous (withItems st (l1 ++ growRow r :: map shiftRow l2))).
    { unfold contiguous, withItems, items. cbn [CircularList.items].
      apply contiguousFrom_app. split; [exact Hc1|].
      split; [exact Hcs|]. split; [simpl; lia|].
      apply (contiguousFrom_shift _ _ Hc2). }
    split.
    { unfold withItems, items. cbn [CircularList.items].
      apply indexedFrom_app. split; [exact Hi1|]. split; [exact Hir|].
      apply indexedFrom_map; [reflexivity | exact Hi2]. }
    split; [exact Hc'|]. split; [apply contiguous_adjacent; exact Hc'|].
    split; [apply contiguous_partitions; exact Hc'|].
    rewrite !rowCount_sumRows. unfold withItems, items. cbn [CircularList.items].
    rewrite Hl, !sumRows_app. cbn [sumRows]. rewrite sumRows_shift.
    unfold numRows. simpl. lia.
Qed.

Lemma layout_after_recompute_and_growth_witness :
  adjacent (changeLineLength Examples.evictedTwo Examples.twoLines 4 (Some 3))
  /\ partitions (changeLineLength Examples.threeRows Examples.twoLines 4 (Some 3))
  /\ (exists st',
        addRowToLine (changeLineLength Examples.threeRows Examples.twoLines 4 (Some 3)) 5
        = Returns st' /\ adjacent st' /\ rowCount st' = 10)
  /\ exists st',
       addRowToLine Examples.threeRows 1 = Returns st'
       /\ partitions st' /\ rowCount st' = 4.
Proof.
  destruct layout_after_recompute_and_growth as (Hadj & Hchange & Hgrow & Hkeep).
  assert (Hw : 1 <= 4) by lia.
  assert (Hi : indexed Examples.threeRows) by (vm_compute; repeat split).
  assert (Hc : contiguous Examples.threeRows)
    by (vm_compute; repeat split; discriminate).
  split; [exact (Hadj Examples.evictedTwo Examples.twoLines 4 (Some 3) Hw)|].
  assert (Hz : startsAtZero Examples.threeRows)
    by (intros r H; injection H as <-; reflexivity).
  assert (Ho : orphansSpan Examples.twoLines (items Examples.threeRows))
    by (intros r [<-|[<-|[<-|[]]]] _; simpl; lia).
  destruct (Hchange Examples.threeRows Examples.twoLines 4 (Some 3) Hw Hz Ho)
    as (_ & Hpart & Hidx).
  split; [exact Hpart|]. split.
  - destruct (Hgrow (changeLineLength Examples.threeRows Examples.twoLines 4 (Some 3)) 5
                (Hidx Hi)
                (Hadj Examples.threeRows Examples.twoLines 4 (Some 3) Hw))
      as (_ & Hadj' & Hret).
    destruct Hret as (st' & Hadd & Hcount).
    + exists (mkRow 1 1 7 (Some [25])). split; [vm_compute; auto | simpl; lia].
    + exists st'. split; [exact Hadd|]. rewrite Hadd in Hadj'.
      split; [exact Hadj' | exact Hcount].
  - assert (Hr : 0 <= 1 < rowCount Examples.threeRows)
      by (vm_compute; split; [discriminate | reflexivity]).
    destruct (Hkeep Examples.threeRows 1 Hi Hc Hr)
      as (st' & Hadd & _ & _ & _ & Hpart' & Hcount).
    exists st'. split; [exact Hadd|]. split; [exact Hpart' | exact Hcount].
Defined.

(** C1 as stated fails on a list that has evicted its oldest entry: the
    first entry starts at row 1, [changeLineLength] leaves it there, and row 0
    of [0, rowCount) lies in no span.  On such a list the entries' [lineIndex]
    run ahead of their positions and [addRowToLine] misses the last entry. *)
Lemma layout_counterexample :
  rowCount (changeLineLength Examples.evictedOne Examples.twoLines 80 (Some 0)) = 1
  /\ coverCount (changeLineLength Examples.evictedOne Examples.twoLines 80 (Some 0)) 0 = 0%nat
  /\ ~ partitions (changeLineLength Examples.evictedOne Examples.twoLines 80 (Some 0))
  /\ ~ adjacent (stateOf (addRowToLine Examples.evictedTwo 1)).
Proof.
  split; [reflexivity|]. split; [reflexivity|]. split.
  - intros H. specialize (H 0). vm_compute in H. discriminate.
  - intros H.
    specialize (H 0%nat (mkRow 1 1 2 None) (mkRow 2 2 2 None) eq_refl eq_refl).
    vm_compute in H. discriminate.
Qed.

(** *** Rows per line *)

(** A line whose cache holds one sample [n] is given
    [max(1, ceil(n / width))] rows. *)
Lemma rowsAssigned_cached lines width cursorPos before r (line : Line) (n : Z) :
  CircularList.get lines (lineIndex r) = Some line ->
  lineLength r = Some [n] ->
  Reflow.rowsAssigned lines width cursorPos before r = Z.max 1 (ceilDiv n width).
Proof.
  intros Hg Hl. unfold Reflow.rowsAssigned, Reflow.lengthUsed. rewrite Hg, Hl.
  reflexivity.
Qed.

(** A line without cache that is not the first such line is given one row;
    the first one is given [max(1, ceil(cursorPos / width))] rows. *)
Lemma rowsAssigned_uncached lines width cursorPos before r (line : Line) :
  CircularList.get lines (lineIndex r) = Some line ->
  lineLength r = None ->
  Reflow.rowsAssigned lines width cursorPos before r
  = if existsb (Reflow.usesCursor lines) before then 1
    else Reflow.rowsFor cursorPos width.
Proof.
  intros Hg Hl. unfold Reflow.rowsAssigned, Reflow.lengthUsed. rewrite Hg, Hl.
  destruct (existsb (Reflow.usesCursor lines) before); reflexivity.
Qed.

(** C2 (as amended).  For a width of at least 1, [changeLineLength] leaves
    every entry at its position with its [lineIndex], and gives it
    [Reflow.rowsAssigned] rows: an entry whose line is in the buffer gets
    [max(1, ceil(L / width))] rows, where [L] is the cached length if the
    entry has one, the cursor position for the first entry without cache, and
    0 for every later entry without cache; the live content of the line is
    not read.  An entry whose line is missing keeps its number of rows.
    [rowCount] afterwards is the sum of these numbers. *)
Theorem changeLineLength_rows :
  forall (st : t) (lines : Buffer) (width : Z) (cursorPos : option Z),
    1 <= width ->
    let st' := changeLineLength st lines width cursorPos in
    (forall i r,
        nth_error (items st) i = Some r ->
        exists r',
          nth_error (items st') i = Some r'
          /\ lineIndex r' = lineIndex r
          /\ numRows r'
             = Reflow.rowsAssigned lines width cursorPos (firstn i (items st)) r)
    /\ rowCount st' = Reflow.totalAssigned lines width cursorPos [] (items st).
Proof.
  intros st lines width cursorPos _ st'. split.
  - intros i r Hi.
    destruct (changeLoop_rows lines width cursorPos (items st) None [] i r Hi)
      as (r' & Hn & Hli & _ & Hrows).
    exists r'. split; [exact Hn|]. split; [exact Hli | exact Hrows].
  - rewrite rowCount_sumRows.
    exact (changeLoop_total lines width cursorPos (items st) None []).
Qed.

Lemma changeLineLength_rows_witness :
  rowCount (changeLineLength Examples.threeRows Examples.twoLines 4 (Some 3)) = 9.
Proof.
  destruct (changeLineLength_rows Examples.threeRows Examples.twoLines 4 (Some 3))
    as [_ Htotal]; [lia|].
  rewrite Htotal. reflexivity.
Defined.

(** C2 as stated fails: a line of ten letters without cached length gets one
    row at width 5 (the cursor position 3 decides), where the stated rule
    gives [ceil(10 / 5) = 2]. *)
Lemma changeLineLength_rows_counterexample :
  CircularList.get Examples.oneLine 0 = Some Examples.tenLetters
  /\ getRow (changeLineLength Examples.oneRow Examples.oneLine 5 (Some 3)) 0
     = Some (mkRow 0 0 0 None)
  /\ ReflowSpec.lineRows (mkRow 0 0 0 None) Examples.tenLetters 5 = 2
  /\ rowCount (changeLineLength Examples.oneRow Examples.oneLine 5 (Some 3)) = 1.
Proof. repeat split. Qed.

(** *** Idempotence *)

(** C3.  For a width of at least 1, a second call of [changeLineLength] with
    the same buffer, width and cursor position leaves the state as the first
    call left it. *)
Theorem changeLineLength_idempotent :
  forall (st : t) (lines : Buffer) (width : Z) (cursorPos : option Z),
    1 <= width ->
    changeLineLength (changeLineLength st lines width cursorPos) lines width cursorPos
    = changeLineLength st lines width cursorPos.
Proof.
  intros st lines width cursorPos _.
  unfold changeLineLength, withItems, items. cbn [CircularList.items CircularList.maxLength].
  f_equal. apply changeLoop_idempotent.
Qed.

Lemma changeLineLength_idempotent_witness :
  changeLineLength
    (changeLineLength Examples.threeRows Examples.twoLines 4 (Some 3))
    Examples.twoLines 4 (Some 3)
  = changeLineLength Examples.threeRows Examples.twoLines 4 (Some 3).
Proof. apply changeLineLength_idempotent. lia. Defined.

(** *** Point queries *)



(** *** Trimming *)

(** The entries [trimStart] leaves behind, whether it returns or throws. *)
Lemma trimStart_items (st : t) (count : Z) :
  CircularList.length st <= CircularList.maxLength st ->
  items (stateOf (trimStart st count))
  = map (lowerRow count) (skipn (Z.to_nat count) (items st)).
Proof.
  intros Hbound.
  pose proof (trimStart_run st count) as Hrun. cbv zeta in Hrun.
  set (kept := skipn (Z.to_nat count) (items st)) in *.
  assert (Hkept : (List.length kept <= List.length (items st))%nat).
  { unfold kept. rewrite length_skipn. lia. }
  unfold CircularList.length in Hbound. fold (items st) in Hbound.
  destruct (Z.to_nat (CircularList.maxLength st) <=? List.length kept)%nat eqn:E;
    rewrite Hrun; cbn [stateOf withItems items CircularList.items]; [|reflexivity].
  apply Nat.leb_le in E.
  assert (Hn : Z.to_nat (CircularList.maxLength st) = List.length kept) by lia.
  rewrite Hn, firstn_all, skipn_all, app_nil_r. reflexivity.
Qed.

Lemma trimStart_returns (st : t) (count : Z) :
  returns (trimStart st count)
  = (Z.to_nat (CircularList.maxLength st)
     <=? List.length (skipn (Z.to_nat count) (items st)))%nat.
Proof.
  pose proof (trimStart_run st count) as Hrun. cbv zeta in Hrun.
  destruct (Z.to_nat (CircularList.maxLength st)
            <=? List.length (skipn (Z.to_nat count) (items st)))%nat;
    rewrite Hrun; reflexivity.
Qed.

(** C10.  [trimStart(count)] drops the oldest [count] entries; the entry that
    was at position [count + i] is left at position [i] with [count]
    subtracted from its [lineIndex], its [startIndex] and its [endIndex], and
    its cached lengths untouched.  The adjusting loop runs on to position
    [maxLength - 1], so the call returns only if the entries that are left
    fill the list: it returns only on a list that held [maxLength] entries, on
    a list that holds fewer it dereferences an absent entry, and so it does
    whenever an entry is dropped from a list of capacity 1 or more. *)
Theorem trimStart_total_only_when_full :
  forall (st : t) (count : Z),
    0 <= count ->
    CircularList.length st <= CircularList.maxLength st ->
    let kept := skipn (Z.to_nat count) (items st) in
    let left := items (stateOf (trimStart st count)) in
    List.length left = (List.length (items st) - Z.to_nat count)%nat
    /\ (forall (i : nat) (r : RowIndex),
          nth_error (items st) (Z.to_nat count + i) = Some r ->
          exists r',
            nth_error left i = Some r'
            /\ lineIndex r' = lineIndex r - count
            /\ startIndex r' = startIndex r - count
            /\ endIndex r' = endIndex r - count
            /\ lineLength r' = lineLength r)
    /\ (returns (trimStart st count) = true <->
        Z.of_nat (List.length kept) = CircularList.maxLength st)
    /\ (returns (trimStart st count) = true ->
        CircularList.length st = CircularList.maxLength st)
    /\ (CircularList.length st < CircularList.maxLength st ->
        returns (trimStart st count) = false)
    /\ (1 <= count -> 1 <= CircularList.maxLength st ->
        returns (trimStart st count) = false).
Proof.
  intros st count Hcount Hbound kept left.
  assert (Hleft : left = map (lowerRow count) kept)
    by (apply trimStart_items; exact Hbound).
  assert (Hlen : List.length kept = (List.length (items st) - Z.to_nat count)%nat)
    by (unfold kept; apply length_skipn).
  pose proof (trimStart_returns st count) as Hret. fold kept in Hret.
  unfold CircularList.length in Hbound |- *. fold (items st) in Hbound |- *.
  split; [rewrite Hleft, length_map; exact Hlen|].
  split.
  { intros i r Hr. exists (lowerRow count r). rewrite Hleft.
    split; [|repeat split].
    unfold kept. rewrite nth_error_map, nth_error_skipn, Hr. reflexivity. }
  rewrite Hret.
  split; [split; intros H; [apply Nat.leb_le in H | apply Nat.leb_le]; lia|].
  split; [intros H; apply Nat.leb_le in H; lia|].
  split; intros; apply Nat.leb_gt; lia.
Qed.

Lemma trimStart_total_only_when_full_witness :
  (returns (trimStart Examples.fullTwo 1) = false
   /\ exists r',
       nth_error (items (stateOf (trimStart Examples.fullTwo 1))) 0 = Some r'
       /\ lineIndex r' = 0 /\ startIndex r' = 0 /\ endIndex r' = 0)
  /\ returns (trimStart Examples.fullTwo 0) = true
  /\ returns (trimStart Examples.oneRow 0) = false.
Proof.
  assert (H0 : 0 <= 0) by lia.
  assert (H1 : 0 <= 1) by lia.
  assert (Hf : CircularList.length Examples.fullTwo
               <= CircularList.maxLength Examples.fullTwo)
    by (vm_compute; discriminate).
  assert (Ho : CircularList.length Examples.oneRow
               <= CircularList.maxLength Examples.oneRow)
    by (vm_compute; discriminate).
  split; [|split].
  - destruct (trimStart_total_only_when_full Examples.fullTwo 1 H1 Hf)
      as (_ & Hfields & _ & _ & _ & Hthrows).
    split; [apply Hthrows; vm_compute; discriminate|].
    destruct (Hfields 0%nat (mkRow 1 1 1 None) eq_refl)
      as (r' & Hr & Hl & Hs & He & _).
    exists r'. split; [exact Hr|]. split; [exact Hl|]. split; [exact Hs | exact He].
  - destruct (trimStart_total_only_when_full Examples.fullTwo 0 H0 Hf)
      as (_ & _ & Hiff & _).
    apply Hiff. reflexivity.
  - destruct (trimStart_total_only_when_full Examples.oneRow 0 H0 Ho)
      as (_ & _ & _ & _ & Hfew & _).
    apply Hfew. vm_compute. reflexivity.
Defined.

(** *** Appending an entry *)

Lemma get_last (l : list RowIndex) (r : RowIndex) (mx : Z) :
  CircularList.get (CircularList.mk (l ++ [r]) mx)
    (CircularList.length (CircularList.mk (l ++ [r]) mx) - 1)
  = Some r.
Proof.
  unfold CircularList.length. cbn [CircularList.items].
  replace (Z.of_nat (List.length (l ++ [r])) - 1) with (Z.of_nat (List.length l))
    by (rewrite length_app; simpl; lia).
  apply (get_after l [r] mx).
Qed.

(** Below capacity, [push] appends one entry and touches no other: a
    single-row entry without cached lengths, which starts on the row after
    the end of the last entry and carries the last [lineIndex] plus one (row 0
    and [lineIndex] 0 on an empty list).  The layout from row 0 and the
    agreement of [lineIndex] and position are kept, and [rowCount] grows by
    one. *)
Lemma push_keeps_layout (st : t) :
  CircularList.length st < CircularList.maxLength st ->
  (exists new,
      items (push st) = items st ++ [new]
      /\ endIndex new = startIndex new
      /\ lineLength new = None
      /\ match last (map Some (items st)) None with
         | Some prev =>
             lineIndex new = lineIndex prev + 1
             /\ startIndex new = endIndex prev + 1
         | None => lineIndex new = 0 /\ startIndex new = 0
         end)
  /\ (contiguous st -> indexed st ->
      contiguous (push st) /\ indexed (push st)
      /\ rowCount (push st) = rowCount st + 1).
Proof.
  intros Hcap. destruct st as [l mx].
  unfold push, CircularList.push. cbn [CircularList.maxLength] in *.
  apply Z.ltb_lt in Hcap. rewrite Hcap.
  unfold contiguous, indexed, items in *. rewrite !rowCount_sumRows.
  unfold items. cbn [CircularList.items] in *.
  destruct l as [|x l0].
  - split; [|intros _ _; simpl; repeat split; lia].
    eexists. split; [reflexivity|]. simpl. repeat split.
  - destruct (exists_last (l := x :: l0) ltac:(discriminate)) as (l' & r & E).
    rewrite E in *. clear E x l0.
    rewrite get_last. split.
    + eexists. split; [reflexivity|]. rewrite map_app. cbn [map]. rewrite last_last.
      cbn [endIndex startIndex lineLength lineIndex]. repeat split.
    + intros Hc Hi. rewrite sumRows_app.
      apply contiguousFrom_app in Hc. destruct Hc as (Hc1 & Hs & Hle & _).
      apply indexedFrom_app in Hi. destruct Hi as (Hi1 & Hli & _).
      split; [|split].
      * apply contiguousFrom_app. split.
        -- apply contiguousFrom_app. simpl. auto.
        -- rewrite sumRows_app. simpl. unfold numRows. repeat split; lia.
      * apply indexedFrom_app. split.
        -- apply indexedFrom_app. simpl. auto.
        -- rewrite length_app. simpl. split; [lia | exact I].
      * simpl. unfold numRows. simpl. lia.
Qed.

Lemma push_keeps_layout_witness :
  (exists new,
      items (push Examples.oneRow) = items Examples.oneRow ++ [new]
      /\ lineIndex new = 1 /\ startIndex new = 1 /\ endIndex new = 1)
  /\ contiguous (push Examples.oneRow) /\ indexed (push Examples.oneRow)
  /\ rowCount (push Examples.oneRow) = rowCount Examples.oneRow + 1.
Proof.
  assert (Hcap : CircularList.length Examples.oneRow
                 < CircularList.maxLength Examples.oneRow) by reflexivity.
  destruct (push_keeps_layout Examples.oneRow Hcap) as ((new & Hpush & He & _ & Hl & Hs) & Hkeep).
  split.
  - exists new. split; [exact Hpush|]. cbn in Hl, Hs.
    split; [exact Hl|]. split; [exact Hs|]. rewrite He. exact Hs.
  - apply Hkeep.
    + vm_compute. repeat split; discriminate.
    + vm_compute. repeat split.
Defined.

End LineWrapFacts.

(** * Properties of the render scheduler *)
Module SchedulerFacts.
Import Renderer.

Lemma queueAll_spec (ranges : list DirtyRange) :
  forall r,
    queueAll r ranges
    = (mk (_refreshRowsQueue r ++ ranges) (_refreshFramesSkipped r)
          (match ranges with [] => _refreshAnimationFrame r | _ => true end),
       match ranges with
       | [] => []
       | _ => if _refreshAnimationFrame r then [] else [RequestAnimationFrame]
       end).
Proof.
  induction ranges as [|q ranges IH]; intros [queue skipped armed]; simpl.
  - rewrite app_nil_r. reflexivity.
  - destruct q as [s e]. unfold queueRefresh. simpl.
    destruct armed; simpl; rewrite IH; simpl; rewrite <- app_assoc; simpl;
      destruct ranges; reflexivity.
Qed.

Lemma mergeRange_fold (rest : list DirtyRange) :
  forall s e s' e',
    fold_left mergeRange rest (s, e) = (s', e') ->
    isMin s' (s :: map start rest) /\ isMax e' (e :: map end_ rest).
Proof.
  induction rest as [|q rest IH]; intros s e s' e' H; simpl in H.
  - injection H as <- <-. split; split; simpl; auto; intros y [<-|[]]; lia.
  - apply IH in H. destruct H as ((Hins & Hmin) & (Hine & Hmax)).
    pose proof (Hmin _ (or_introl eq_refl)) as Hs.
    pose proof (Hmax _ (or_introl eq_refl)) as He.
    simpl in *. rewrite Z.gtb_ltb in *.
    revert Hins Hmin Hs Hine Hmax He.
    destruct (start q <? s) eqn:Es; [apply Z.ltb_lt in Es | apply Z.ltb_ge in Es];
      (destruct (e <? end_ q) eqn:Ee; [apply Z.ltb_lt in Ee | apply Z.ltb_ge in Ee]);
      intros Hins Hmin Hs Hine Hmax He;
      (split; split; simpl; [tauto | | tauto |]);
      intros y [Hy|[Hy|Hy]]; subst; auto; lia.
Qed.

(** A frame that fires while the backlog is non-empty and the counter is at
    most [MAX_REFRESH_FRAME_SKIP] is skipped. *)
Lemma refreshLoop_skips (term : Terminal) (r : t) :
  writeBuffer term <> [] ->
  _refreshFramesSkipped r <= MAX_REFRESH_FRAME_SKIP ->
  _refreshLoop term r
  = (Returns (mk (_refreshRowsQueue r) (_refreshFramesSkipped r + 1) true),
     [RequestAnimationFrame]).
Proof.
  intros Hwb Hle. unfold _refreshLoop.
  destruct (writeBuffer term) as [|w wb]; [contradiction|].
  replace (0 <? Z.of_nat (List.length (w :: wb))) with true
    by (symmetry; apply Z.ltb_lt; simpl List.length; lia).
  replace (_refreshFramesSkipped r <=? MAX_REFRESH_FRAME_SKIP) with true
    by (symmetry; apply Z.leb_le; exact Hle).
  reflexivity.
Qed.

Lemma runFrames_skips (terms : list Terminal) :
  forall r,
    Forall (fun term => writeBuffer term <> []) terms ->
    _refreshFramesSkipped r + Z.of_nat (List.length terms) <= MAX_REFRESH_FRAME_SKIP + 1 ->
    runFrames terms r
    = (Returns (match terms with
                | [] => r
                | _ => mk (_refreshRowsQueue r)
                          (_refreshFramesSkipped r + Z.of_nat (List.length terms)) true
                end),
       repeat RequestAnimationFrame (List.length terms)).
Proof.
  induction terms as [|term terms IH]; intros r Hall Hle; [reflexivity|].
  inversion Hall as [|? ? Hwb Hall']; subst.
  cbn [runFrames]. rewrite (refreshLoop_skips term r Hwb) by (simpl List.length in Hle; lia).
  rewrite IH; [| exact Hall' | simpl in *; lia].
  destruct terms as [|term' terms];
    cbn [List.length repeat app _refreshRowsQueue _refreshFramesSkipped].
  - reflexivity.
  - do 3 f_equal. lia.
Qed.

(** A frame that is not skipped paints the merged range and empties the
    queue. *)
Lemma refreshLoop_paints (term : Terminal) (r : t) (q : DirtyRange) (queue : list DirtyRange) :
  _refreshRowsQueue r = q :: queue ->
  writeBuffer term = [] \/ MAX_REFRESH_FRAME_SKIP < _refreshFramesSkipped r ->
  exists s e,
    _refreshLoop term r = (Returns (mk [] 0 false), [Refresh s e])
    /\ ((List.length (q :: queue) <= 4)%nat ->
        isMin s (map start (q :: queue)) /\ isMax e (map end_ (q :: queue)))
    /\ ((4 < List.length (q :: queue))%nat -> s = 0 /\ e = rows term - 1).
Proof.
  intros Hq Hns. unfold _refreshLoop. rewrite Hq.
  assert (Hskip : (0 <? Z.of_nat (List.length (writeBuffer term)))
                  && (_refreshFramesSkipped r <=? MAX_REFRESH_FRAME_SKIP) = false).
  { destruct Hns as [-> | Hgt]; [reflexivity|].
    apply andb_false_iff. right. apply Z.leb_gt. exact Hgt. }
  rewrite Hskip.
  destruct (4 <? Z.of_nat (List.length (q :: queue))) eqn:E4;
    [apply Z.ltb_lt in E4 | apply Z.ltb_ge in E4].
  - exists 0, (rows term - 1). split; [reflexivity|]. split; intros; [lia | auto].
  - destruct (fold_left mergeRange queue (start q, end_ q)) as [s e] eqn:Ef.
    exists s, e. split; [reflexivity|]. split; [|intros; lia].
    intros _. exact (mergeRange_fold queue _ _ _ _ Ef).
Qed.

(** C4.  After [N >= 1] calls of [queueRefresh] on an idle renderer, one
    frame has been requested; when it fires and is not skipped, exactly one
    refresh is dispatched and the queue is emptied.  Its range runs from the
    least queued start to the greatest queued end when [N <= 4], and over the
    viewport [0, rows - 1] when [N > 4]. *)
Theorem queued_refreshes_merge_into_one :
  forall (term : Terminal) (r : t) (ranges : list DirtyRange),
    _refreshRowsQueue r = [] ->
    _refreshAnimationFrame r = false ->
    ranges <> [] ->
    writeBuffer term = [] \/ MAX_REFRESH_FRAME_SKIP < _refreshFramesSkipped r ->
    exists r1 s e,
      queueAll r ranges = (r1, [RequestAnimationFrame])
      /\ _refreshRowsQueue r1 = ranges
      /\ _refreshLoop term r1 = (Returns (mk [] 0 false), [Refresh s e])
      /\ ((List.length ranges <= 4)%nat ->
          isMin s (map start ranges) /\ isMax e (map end_ ranges))
      /\ ((4 < List.length ranges)%nat -> s = 0 /\ e = rows term - 1).
Proof.
  intros term r ranges Hq Harmed Hne Hns.
  destruct ranges as [|q queue]; [contradiction|].
  rewrite queueAll_spec, Hq, Harmed. cbn [app].
  destruct (refreshLoop_paints term (mk (q :: queue) (_refreshFramesSkipped r) true)
              q queue eq_refl Hns) as (s & e & Hloop & Hfew & Hmany).
  exists (mk (q :: queue) (_refreshFramesSkipped r) true), s, e.
  repeat split; auto; try (apply Hfew; assumption); try (apply Hmany; assumption).
Qed.

Lemma queued_refreshes_merge_into_one_witness :
  exists r1 s e,
    queueAll (mk [] 0 false) [mkRange 3 5; mkRange 1 4; mkRange 2 9]
    = (r1, [RequestAnimationFrame])
    /\ _refreshLoop (mkTerminal [] 24) r1 = (Returns (mk [] 0 false), [Refresh s e])
    /\ isMin s [3; 1; 2] /\ isMax e [5; 4; 9].
Proof.
  destruct (queued_refreshes_merge_into_one (mkTerminal [] 24) (mk [] 0 false)
              [mkRange 3 5; mkRange 1 4; mkRange 2 9])
    as (r1 & s & e & Hq & _ & Hloop & Hfew & _);
    [reflexivity | reflexivity | discriminate | left; reflexivity |].
  exists r1, s, e. split; [exact Hq|]. split; [exact Hloop|].
  apply Hfew. simpl. lia.
Defined.

(** C7 (the code at the failing input).  With a backlog at every frame and
    the skip counter at 0, six frame callbacks in a row are skipped, one more
    than [MAX_REFRESH_FRAME_SKIP]; the seventh paints and resets the counter. *)
Theorem six_consecutive_frames_skipped :
  forall (terms : list Terminal) (term7 : Terminal) (r : t)
         (q : DirtyRange) (queue : list DirtyRange),
    List.length terms = 6%nat ->
    Forall (fun term => writeBuffer term <> []) terms ->
    writeBuffer term7 <> [] ->
    _refreshFramesSkipped r = 0 ->
    _refreshRowsQueue r = q :: queue ->
    runFrames terms r
    = (Returns (mk (q :: queue) 6 true), repeat RequestAnimationFrame 6)
    /\ exists s e,
         _refreshLoop term7 (mk (q :: queue) 6 true)
         = (Returns (mk [] 0 false), [Refresh s e]).
Proof.
  intros terms term7 r q queue Hlen Hall Hwb Hzero Hq. split.
  - rewrite (runFrames_skips terms r Hall)
      by (rewrite Hlen, Hzero; unfold MAX_REFRESH_FRAME_SKIP; lia).
    rewrite Hlen, Hzero, Hq.
    destruct terms; [discriminate | reflexivity].
  - destruct (refreshLoop_paints term7 (mk (q :: queue) 6 true) q queue eq_refl)
      as (s & e & Hloop & _).
    + right. unfold MAX_REFRESH_FRAME_SKIP. simpl. lia.
    + exists s, e. exact Hloop.
Qed.

Lemma six_consecutive_frames_skipped_witness :
  runFrames (repeat (mkTerminal ["x"%string] 24) 6) (mk [mkRange 1 2] 0 true)
  = (Returns (mk [mkRange 1 2] 6 true), repeat RequestAnimationFrame 6).
Proof.
  apply (six_consecutive_frames_skipped
           (repeat (mkTerminal ["x"%string] 24) 6) (mkTerminal ["x"%string] 24)
           (mk [mkRange 1 2] 0 true) (mkRange 1 2) []).
  - reflexivity.
  - repeat constructor; discriminate.
  - discriminate.
  - reflexivity.
  - reflexivity.
Defined.

End SchedulerFacts.

(** * Properties of the cell compositor *)
Module CompositorFacts.
Import Renderer.

(** Turns the comparisons that a case analysis has decided into
    propositions [lia] reads. *)
Ltac decided :=
  repeat match goal with
  | H : (_ <? _) = true |- _ => apply Z.ltb_lt in H
  | H : (_ <? _) = false |- _ => apply Z.ltb_ge in H
  | H : (_ =? _) = true |- _ => apply Z.eqb_eq in H
  | H : (_ =? _) = false |- _ => apply Z.eqb_neq in H
  end.

(** Decides the conditionals of the goal one after the other. *)
Ltac split_ifs :=
  repeat match goal with
  | |- context [if ?c then _ else _] => destruct c eqn:?
  end.

(** Unfolds [decode] and decides its five flag tests. *)
Ltac open_decode data :=
  unfold decode, hasFlag, FLAGS.BOLD, FLAGS.UNDERLINE, FLAGS.BLINK,
    FLAGS.INVERSE, FLAGS.INVISIBLE in *;
  destruct (truthy (Z.land (storedFlags data) 1)) eqn:Ebold;
  destruct (truthy (Z.land (storedFlags data) 2)) eqn:Eunderline;
  destruct (truthy (Z.land (storedFlags data) 4)) eqn:Eblink;
  destruct (truthy (Z.land (storedFlags data) 8)) eqn:Einverse;
  destruct (truthy (Z.land (storedFlags data) 16)) eqn:Einvisible;
  try discriminate; cbn [bg fg classNames andb negb].

Lemma storedBg_range (data : Z) : 0 <= storedBg data < 512.
Proof.
  unfold storedBg. change 0x1ff with (Z.ones 9). rewrite Z.land_ones by lia.
  apply Z.mod_pos_bound. reflexivity.
Qed.

Lemma storedFg_range (data : Z) : 0 <= storedFg data < 512.
Proof.
  unfold storedFg. change 0x1ff with (Z.ones 9). rewrite Z.land_ones by lia.
  apply Z.mod_pos_bound. reflexivity.
Qed.

(** [decode] in one piece: the flag classes, then the colour classes of the
    colours the run ends up with. *)
Lemma decode_normal (brokenBold : bool) (data : Z) :
  decode brokenBold data
  = mkSpan (flagClasses brokenBold data
            ++ colourClasses (emittedBg data) (emittedFg data))
           (emittedBg data) (emittedFg data).
Proof.
  unfold flagClasses, colourClasses, emittedBg, emittedFg, boldColor.
  open_decode data; destruct brokenBold; cbn [negb andb app];
    split_ifs; reflexivity.
Qed.

Lemma decode_bg (brokenBold : bool) (data : Z) :
  bg (decode brokenBold data) = emittedBg data.
Proof. rewrite decode_normal. reflexivity. Qed.

Lemma decode_fg (brokenBold : bool) (data : Z) :
  fg (decode brokenBold data) = emittedFg data.
Proof. rewrite decode_normal. reflexivity. Qed.

Lemma decode_bg_class (brokenBold : bool) (data : Z) :
  emittedBg data < 256 ->
  In (XtermBgColor (emittedBg data)) (classNames (decode brokenBold data)).
Proof.
  intros H. rewrite decode_normal. cbn [classNames]. unfold colourClasses.
  apply Z.ltb_lt in H. rewrite H. rewrite !in_app_iff. right. left. left. reflexivity.
Qed.

Lemma decode_fg_class (brokenBold : bool) (data : Z) :
  emittedFg data < 256 ->
  In (XtermColor (emittedFg data)) (classNames (decode brokenBold data)).
Proof.
  intros H. rewrite decode_normal. cbn [classNames]. unfold colourClasses.
  apply Z.ltb_lt in H. rewrite H. rewrite !in_app_iff. right. right. left. reflexivity.
Qed.

Lemma decode_bold_class (brokenBold : bool) (data : Z) :
  In XtermBold (classNames (decode brokenBold data))
  <-> hasFlag data FLAGS.BOLD = true /\ brokenBold = false.
Proof.
  rewrite decode_normal. cbn [classNames]. unfold flagClasses, colourClasses.
  rewrite !in_app_iff.
  destruct (hasFlag data FLAGS.BOLD), brokenBold; cbn [andb negb];
    split_ifs; simpl; intuition congruence.
Qed.

(** *** Inverse *)

(** C5 (as amended).  For a cell with the inverse flag the run's background
    is the stored foreground and its foreground the stored background, each
    after the bold promotion of an index below 8; a background that comes out
    as 257 is emitted as 15 and a foreground that comes out as 256 as 0.  So
    it is a stored foreground of 257 that gives the background 15, and a
    stored background of 256 that gives the foreground 0. *)
Theorem inverse_swaps_and_pins :
  forall (brokenBold : bool) (data : Z),
    hasFlag data FLAGS.INVERSE = true ->
    (storedFg data = 257 ->
       bg (decode brokenBold data) = 15
       /\ In (XtermBgColor 15) (classNames (decode brokenBold data)))
    /\ (storedBg data = 256 ->
         fg (decode brokenBold data) = 0
         /\ In (XtermColor 0) (classNames (decode brokenBold data)))
    /\ (storedFg data <> 257 ->
         bg (decode brokenBold data)
         = boldColor (hasFlag data FLAGS.BOLD) (storedFg data))
    /\ (storedBg data <> 256 ->
         fg (decode brokenBold data)
         = boldColor (hasFlag data FLAGS.BOLD) (storedBg data)).
Proof.
  intros brokenBold data Hinv.
  assert (Hbg : storedFg data = 257 -> emittedBg data = 15).
  { intros H. unfold emittedBg, boldColor. rewrite Hinv, H.
    destruct (hasFlag data FLAGS.BOLD); reflexivity. }
  assert (Hfg : storedBg data = 256 -> emittedFg data = 0).
  { intros H. unfold emittedFg, boldColor. rewrite Hinv, H.
    destruct (hasFlag data FLAGS.BOLD); reflexivity. }
  split; [|split; [|split]].
  - intros H. rewrite decode_bg. split; [auto|].
    rewrite <- (Hbg H). apply decode_bg_class. rewrite (Hbg H). lia.
  - intros H. rewrite decode_fg. split; [auto|].
    rewrite <- (Hfg H). apply decode_fg_class. rewrite (Hfg H). lia.
  - intros H. rewrite decode_bg. unfold emittedBg, boldColor. rewrite Hinv.
    cbv zeta. split_ifs; decided; try reflexivity; lia.
  - intros H. rewrite decode_fg. unfold emittedFg, boldColor. rewrite Hinv.
    cbv zeta. split_ifs; decided; try reflexivity; lia.
Qed.

Lemma inverse_swaps_and_pins_witness :
  bg (decode false (attrWord 8 257 256)) = 15
  /\ In (XtermBgColor 15) (classNames (decode false (attrWord 8 257 256))).
Proof.
  destruct (inverse_swaps_and_pins false (attrWord 8 257 256)) as (H & _);
    [reflexivity|].
  apply H. reflexivity.
Defined.

(** C5 as stated fails: with the inverse flag, the stored background 257 and
    the stored foreground 1, the run's background is 1. *)
Lemma inverse_counterexample :
  hasFlag (attrWord 8 1 257) FLAGS.INVERSE = true
  /\ storedBg (attrWord 8 1 257) = 257
  /\ bg (decode false (attrWord 8 1 257)) = 1
  /\ classNames (decode false (attrWord 8 1 257)) = [XtermBgColor 1].
Proof. repeat split. Qed.

(** *** Bold *)

(** C6 (as amended).  For a cell with the bold flag and a stored foreground
    below 8, the foreground is promoted to [index + 8] whatever [brokenBold]
    is: the promoted index is the run's foreground, or its background when
    the inverse flag is set as well.  [brokenBold] decides only whether the
    run carries the class [xterm-bold]. *)
Theorem bold_promotes_low_foreground :
  forall (brokenBold : bool) (data : Z),
    hasFlag data FLAGS.BOLD = true ->
    storedFg data < 8 ->
    (hasFlag data FLAGS.INVERSE = false ->
       fg (decode brokenBold data) = storedFg data + 8
       /\ In (XtermColor (storedFg data + 8)) (classNames (decode brokenBold data)))
    /\ (hasFlag data FLAGS.INVERSE = true ->
         bg (decode brokenBold data) = storedFg data + 8
         /\ In (XtermBgColor (storedFg data + 8)) (classNames (decode brokenBold data)))
    /\ (In XtermBold (classNames (decode brokenBold data)) <-> brokenBold = false).
Proof.
  intros brokenBold data Hbold Hlow.
  assert (Hlt : (storedFg data <? 8) = true) by (apply Z.ltb_lt; exact Hlow).
  split; [|split].
  - intros Hinv.
    assert (E : emittedFg data = storedFg data + 8).
    { unfold emittedFg, boldColor. rewrite Hinv, Hbold, Hlt. reflexivity. }
    rewrite decode_fg. split; [exact E|].
    rewrite <- E. apply decode_fg_class. lia.
  - intros Hinv.
    assert (E : emittedBg data = storedFg data + 8).
    { unfold emittedBg, boldColor. rewrite Hinv, Hbold, Hlt. cbv zeta. cbn [andb].
      destruct (storedFg data + 8 =? 257) eqn:E; decided; [lia | reflexivity]. }
    rewrite decode_bg. split; [exact E|].
    rewrite <- E. apply decode_bg_class. lia.
  - rewrite decode_bold_class. tauto.
Qed.

Lemma bold_promotes_low_foreground_witness :
  fg (decode true (attrWord 1 1 0)) = 9
  /\ ~ In XtermBold (classNames (decode true (attrWord 1 1 0))).
Proof.
  destruct (bold_promotes_low_foreground true (attrWord 1 1 0))
    as (Hfg & _ & Hclass); [reflexivity | vm_compute; reflexivity |].
  split.
  - apply Hfg. reflexivity.
  - intros H. apply Hclass in H. discriminate H.
Defined.

(** C6 as stated fails: with [brokenBold] set, a bold cell with the stored
    foreground 1 is still emitted with the foreground 9. *)
Lemma bold_counterexample :
  hasFlag (attrWord 1 1 0) FLAGS.BOLD = true
  /\ storedFg (attrWord 1 1 0) = 1
  /\ fg (decode true (attrWord 1 1 0)) = 9
  /\ classNames (decode true (attrWord 1 1 0)) = [XtermBgColor 0; XtermColor 9].
Proof. repeat split. Qed.

End CompositorFacts.

(** * Properties of stale-row chunking *)
Module ChunkFacts.
Import Renderer.

Section Slices.
Context {A : Type}.

Lemma slice_from_zero (l : list A) (e : Z) :
  0 <= e -> slice l 0 e = firstn (Z.to_nat e) l.
Proof.
  intros He. unfold slice, clampIndex.
  replace (0 <? 0) with false by reflexivity.
  replace (e <? 0) with false by (symmetry; apply Z.ltb_ge; exact He).
  rewrite (Z.min_l 0) by lia. rewrite Z.sub_0_r. cbn [Z.to_nat skipn].
  destruct (Z.le_ge_cases e (Z.of_nat (List.length l))) as [Hle|Hge].
  - rewrite Z.min_l by exact Hle. reflexivity.
  - rewrite Z.min_r by exact Hge. rewrite Nat2Z.id.
    rewrite firstn_all. symmetry. apply firstn_all2. lia.
Qed.

Lemma slice_chunk (l : list A) (i n : nat) :
  (i <= List.length l)%nat ->
  slice l (Z.of_nat i) (Z.of_nat i + Z.of_nat n) = firstn n (skipn i l).
Proof.
  intros Hi. unfold slice, clampIndex.
  replace (Z.of_nat i <? 0) with false by (symmetry; apply Z.ltb_ge; lia).
  replace (Z.of_nat i + Z.of_nat n <? 0) with false by (symmetry; apply Z.ltb_ge; lia).
  rewrite (Z.min_l (Z.of_nat i)) by lia. rewrite Nat2Z.id.
  destruct (Nat.le_ge_cases (i + n) (List.length l)) as [Hle|Hge].
  - rewrite Z.min_l by lia. f_equal. lia.
  - rewrite Z.min_r by lia.
    replace (Z.to_nat (Z.of_nat (List.length l) - Z.of_nat i))
      with (List.length (skipn i l)) by (rewrite length_skipn; lia).
    rewrite firstn_all. symmetry. apply firstn_all2. rewrite length_skipn. lia.
Qed.

Lemma chunkLoop_done (fuel : nat) (array : list A) (chunkSize i : Z) acc :
  Z.of_nat (List.length array) <= i ->
  chunkLoop fuel array chunkSize i acc = Some acc.
Proof.
  intros H. apply Z.ltb_ge in H. destruct fuel; simpl; rewrite H; reflexivity.
Qed.

(** With a chunk size of at least 1 the loop of [chunkArray] ends within
    [length array] iterations and cuts the rest of the array into chunks. *)
Lemma chunkLoop_run (array : list A) (size : nat) :
  (1 <= size)%nat ->
  forall fuel i acc,
    (List.length array - i <= fuel)%nat ->
    exists segs,
      chunkLoop fuel array (Z.of_nat size) (Z.of_nat i) acc = Some (acc ++ segs)
      /\ List.concat segs = skipn i array
      /\ fullButLast size segs
      /\ ((List.length array <= i)%nat -> segs = [])
      /\ ((i < List.length array)%nat -> segs <> []).
Proof.
  intros Hsize. induction fuel as [|fuel IH]; intros i acc Hfuel.
  - exists []. rewrite chunkLoop_done by lia. rewrite app_nil_r, skipn_all2 by lia.
    repeat split; auto. lia.
  - destruct (Nat.le_gt_cases (List.length array) i) as [Hdone|Hmore].
    + exists []. rewrite chunkLoop_done by lia. rewrite app_nil_r, skipn_all2 by lia.
      repeat split; auto. lia.
    + cbn [chunkLoop].
      replace (Z.of_nat i <? Z.of_nat (List.length array)) with true
        by (symmetry; apply Z.ltb_lt; lia).
      rewrite slice_chunk by lia.
      replace (Z.of_nat i + Z.of_nat size) with (Z.of_nat (i + size)) by lia.
      destruct (IH (i + size)%nat (acc ++ [firstn size (skipn i array)]) ltac:(lia))
        as (segs & Hrun & Hcat & Hfull & Hnil & Hcons).
      exists (firstn size (skipn i array) :: segs).
      split; [rewrite Hrun, <- app_assoc; reflexivity|].
      split.
      { cbn [List.concat]. rewrite Hcat.
        replace (i + size)%nat with (size + i)%nat by lia.
        rewrite <- skipn_skipn. apply firstn_skipn. }
      split.
      { cbn [fullButLast]. destruct segs as [|seg segs].
        - rewrite length_firstn, length_skipn. lia.
        - split; [|exact Hfull].
          assert (i + size < List.length array)%nat.
          { destruct (Nat.le_gt_cases (List.length array) (i + size)) as [H|H];
              [specialize (Hnil H); discriminate | exact H]. }
          rewrite length_firstn, length_skipn. lia. }
      split; [lia | discriminate].
Qed.

End Slices.

Lemma trimScan_bounds (line : Line) (min blank : Z) (n : nat) :
  -1 <= trimScan line min blank n < Z.of_nat n.
Proof.
  induction n as [|n IH]; cbn [trimScan]; [lia|].
  destruct (nth_error line n) as [c|]; [|lia].
  destruct (Z.of_nat n >=? min);
    [destruct (negb (ch c =? " ")%string)
    |destruct (negb (ch c =? " ")%string || negb (attr c =? blank))]; lia.
Qed.

(** The loop of [trimBlank] passes over blank characters only. *)
Lemma trimScan_blank_above (line : Line) (min blank : Z) (n : nat) :
  forall k c,
    trimScan line min blank n < Z.of_nat k -> (k < n)%nat ->
    nth_error line k = Some c -> ch c = " "%string.
Proof.
  induction n as [|n IH]; intros k c Hk Hlt Hc; [lia|].
  cbn [trimScan] in Hk.
  destruct (nth_error line n) as [c'|] eqn:En; [|lia].
  assert (Hstep : (ch c' =? " ")%string = true ->
                  trimScan line min blank n < Z.of_nat k -> ch c = " "%string).
  { intros Hblank Hk'. destruct (Nat.eq_dec k n) as [->|Hne].
    - rewrite En in Hc. injection Hc as <-. apply String.eqb_eq. exact Hblank.
    - apply (IH k c Hk'); [lia | exact Hc]. }
  destruct (Z.of_nat n >=? min).
  - destruct (ch c' =? " ")%string eqn:Eb; cbn [negb] in Hk; [auto | lia].
  - destruct (ch c' =? " ")%string eqn:Eb; cbn [negb orb] in Hk; [|lia].
    destruct (negb (attr c' =? blank)); [lia | auto].
Qed.









End ChunkFacts.

(** * Properties of the row loop of [_refresh] *)
Module RefreshFacts.
Import Renderer Compositor Refresh ChunkFacts.








Section Rows.
Variable brokenBold : bool.
Variable term : Terminal.
Variable end_ : Z.
Hypothesis Hcols : 1 <= cols term.







End Rows.




End RefreshFacts.

(** * Further properties of the reflow index *)
Module LineWrapMore.
Import LineWrap LineWrapOps LineWrapFacts.

(** On a list in which position and [lineIndex] agree, the first entry with
    [lineIndex] [i] is the one at position [i]. *)
Lemma alterFirst_indexed (f : RowIndex -> RowIndex) (l : list RowIndex) (i : nat) (r : RowIndex) :
  indexedFrom 0 l -> nth_error l i = Some r ->
  exists l1 l2,
    l = l1 ++ r :: l2 /\ List.length l1 = i
    /\ CircularList.alterFirst (hasLineIndex (Z.of_nat i)) f l = l1 ++ f r :: l2.
Proof.
  intros Hidx Hnth.
  destruct (nth_error_split l i Hnth) as (l1 & l2 & -> & Hlen).
  exists l1, l2. split; [reflexivity|]. split; [exact Hlen|].
  apply indexedFrom_app in Hidx. destruct Hidx as (H1 & Hr & _).
  apply alterFirst_split.
  - apply indexedFrom_below in H1.
    eapply Forall_impl; [|exact H1]. intros y Hy. simpl in Hy.
    unfold hasLineIndex. apply Z.eqb_neq. lia.
  - unfold hasLineIndex. apply Z.eqb_eq. lia.
Qed.

Lemma nth_error_middle {A : Type} (l1 l2 : list A) (x : A) :
  nth_error (l1 ++ x :: l2) (List.length l1) = Some x.
Proof. rewrite nth_error_app2, Nat.sub_diag by lia. reflexivity. Qed.

(** The entry of line [i] after [setLineLength(i, length, width)] and a
    reflow at [width']. *)
Lemma reflow_after_sample (st : t) (lines : Buffer) (i : nat) (r : RowIndex)
    (length_ width width' : Z) (cursorPos : option Z) :
  indexed st -> nth_error (items st) i = Some r ->
  exists r',
    nth_error
      (items (changeLineLength (setLineLength st (Z.of_nat i) length_ width)
                lines width' cursorPos)) i = Some r'
    /\ numRows r'
       = Reflow.rowsAssigned lines width' cursorPos
           (firstn i (items (setLineLength st (Z.of_nat i) length_ width)))
           (addSample ((endIndex r - startIndex r) * width + length_) r).
Proof.
  intros Hidx Hnth.
  destruct (alterFirst_indexed
              (fun r => addSample ((endIndex r - startIndex r) * width + length_) r)
              _ i r Hidx Hnth) as (l1 & l2 & Hl & Hlen & Halter).
  assert (Hnth' : nth_error (items (setLineLength st (Z.of_nat i) length_ width)) i
                  = Some (addSample ((endIndex r - startIndex r) * width + length_) r)).
  { unfold setLineLength, withItems, items. cbn [CircularList.items].
    unfold items in Halter. rewrite Halter, <- Hlen. apply nth_error_middle. }
  destruct (changeLoop_rows lines width' cursorPos _ None [] i _ Hnth')
    as (r' & Hr' & _ & _ & Hrows).
  exists r'. split; [exact Hr' | exact Hrows].
Qed.

(** A first length sample decides the rows of its line at the next reflow:
    on an index whose entries sit at their [lineIndex], for a line of the
    buffer without cached length, [setLineLength(i, length, width)] followed
    by [changeLineLength] at [width'] gives entry [i]
    [max(1, ceil(((endIndex - startIndex) * width + length) / width'))]
    rows. *)
Theorem first_sample_decides_rows :
  forall (st : t) (lines : Buffer) (i : nat) (r : RowIndex) (line : Line)
         (length_ width width' : Z) (cursorPos : option Z),
    indexed st ->
    nth_error (items st) i = Some r ->
    lineLength r = None ->
    CircularList.get lines (lineIndex r) = Some line ->
    1 <= width' ->
    exists r',
      nth_error
        (items (changeLineLength (setLineLength st (Z.of_nat i) length_ width)
                  lines width' cursorPos)) i = Some r'
      /\ numRows r'
         = Z.max 1 (ceilDiv ((endIndex r - startIndex r) * width + length_) width').
Proof.
  intros st lines i r line length_ width width' cursorPos Hidx Hnth Hnone Hline _.
  destruct (reflow_after_sample st lines i r length_ width width' cursorPos Hidx Hnth)
    as (r' & Hr' & Hrows).
  exists r'. split; [exact Hr'|]. rewrite Hrows.
  apply (rowsAssigned_cached _ _ _ _ _ line).
  - exact Hline.
  - unfold addSample. cbn [lineLength]. rewrite Hnone. reflexivity.
Qed.

Lemma first_sample_decides_rows_witness :
  exists r',
    nth_error
      (items (changeLineLength (setLineLength Examples.oneRow 0 10 80)
                Examples.oneLine 4 None)) 0 = Some r'
    /\ numRows r' = 3.
Proof.
  exact (first_sample_decides_rows Examples.oneRow Examples.oneLine 0
           (mkRow 0 0 0 None) Examples.tenLetters 10 80 4 None
           (conj eq_refl I) eq_refl eq_refl eq_refl ltac:(lia)).
Defined.

(** A second sample spoils the cache: once an entry holds a sample, another
    [setLineLength] on its line leaves an array of several samples, which
    the division of [changeLineLength] reads as [NaN]; the line is given one
    row, whatever the samples are. *)
Theorem second_sample_gives_one_row :
  forall (st : t) (lines : Buffer) (i : nat) (r : RowIndex) (line : Line)
         (sample : Z) (samples : list Z)
         (length_ width width' : Z) (cursorPos : option Z),
    indexed st ->
    nth_error (items st) i = Some r ->
    lineLength r = Some (sample :: samples) ->
    CircularList.get lines (lineIndex r) = Some line ->
    exists r',
      nth_error
        (items (changeLineLength (setLineLength st (Z.of_nat i) length_ width)
                  lines width' cursorPos)) i = Some r'
      /\ numRows r' = 1.
Proof.
  intros st lines i r line sample samples length_ width width' cursorPos
         Hidx Hnth Hsome Hline.
  destruct (reflow_after_sample st lines i r length_ width width' cursorPos Hidx Hnth)
    as (r' & Hr' & Hrows).
  exists r'. split; [exact Hr'|]. rewrite Hrows.
  unfold Reflow.rowsAssigned, Reflow.lengthUsed, addSample. cbn [lineIndex lineLength].
  rewrite Hline, Hsome. destruct samples; reflexivity.
Qed.

Lemma second_sample_gives_one_row_witness :
  exists r',
    nth_error
      (items (changeLineLength
                (setLineLength (setLineLength Examples.oneRow 0 10 80) 0 50 80)
                Examples.oneLine 4 None)) 0 = Some r'
    /\ numRows r' = 1.
Proof.
  exact (second_sample_gives_one_row (setLineLength Examples.oneRow 0 10 80)
           Examples.oneLine 0 (mkRow 0 0 0 (Some [10])) Examples.tenLetters
           10 [] 50 80 4 None (conj eq_refl I) eq_refl eq_refl eq_refl).
Defined.

(** [setLineLength] touches no span and no [lineIndex]. *)
Lemma alterFirst_addSample_spans (p : RowIndex -> bool) (g : RowIndex -> Z) (l : list RowIndex) :
  map (fun r => (lineIndex r, startIndex r, endIndex r))
      (CircularList.alterFirst p (fun r => addSample (g r) r) l)
  = map (fun r => (lineIndex r, startIndex r, endIndex r)) l.
Proof.
  induction l as [|x l IH]; simpl; [reflexivity|].
  destruct (p x); simpl; [reflexivity | rewrite IH; reflexivity].
Qed.

Lemma contiguousFrom_spans (l l' : list RowIndex) :
  map (fun r => (lineIndex r, startIndex r, endIndex r)) l'
  = map (fun r => (lineIndex r, startIndex r, endIndex r)) l ->
  forall lo, contiguousFrom lo l -> contiguousFrom lo l'.
Proof.
  revert l'. induction l as [|x l IH]; intros [|x' l'] E lo H; try discriminate;
    [exact I|].
  simpl in E. injection E as _ Es Ee El. simpl in *.
  rewrite Es, Ee. destruct H as (H1 & H2 & H3). auto.
Qed.

Lemma indexedFrom_spans (l l' : list RowIndex) :
  map (fun r => (lineIndex r, startIndex r, endIndex r)) l'
  = map (fun r => (lineIndex r, startIndex r, endIndex r)) l ->
  forall b, indexedFrom b l -> indexedFrom b l'.
Proof.
  revert l'. induction l as [|x l IH]; intros [|x' l'] E b H; try discriminate;
    [exact I|].
  simpl in E. injection E as Ei _ _ El. simpl in *.
  rewrite Ei. destruct H as (H1 & H2). auto.
Qed.

Lemma sumRows_spans (l l' : list RowIndex) :
  map (fun r => (lineIndex r, startIndex r, endIndex r)) l'
  = map (fun r => (lineIndex r, startIndex r, endIndex r)) l ->
  sumRows l' = sumRows l.
Proof.
  revert l'. induction l as [|x l IH]; intros [|x' l'] E; try discriminate;
    [reflexivity|].
  simpl in E. injection E as _ Es Ee El. simpl. unfold numRows.
  rewrite Es, Ee, (IH _ El). reflexivity.
Qed.

(** Recording a length sample leaves the layout alone: [setLineLength]
    changes no [lineIndex], [startIndex] or [endIndex], so [rowCount], the
    layout from row 0 and the agreement of [lineIndex] and position are what
    they were. *)
Theorem setLineLength_keeps_spans :
  forall (st : t) (lineIndex_ length_ width : Z),
    map (fun r => (lineIndex r, startIndex r, endIndex r))
        (items (setLineLength st lineIndex_ length_ width))
    = map (fun r => (lineIndex r, startIndex r, endIndex r)) (items st)
    /\ rowCount (setLineLength st lineIndex_ length_ width) = rowCount st
    /\ (contiguous st -> contiguous (setLineLength st lineIndex_ length_ width))
    /\ (indexed st -> indexed (setLineLength st lineIndex_ length_ width)).
Proof.
  intros st lineIndex_ length_ width.
  assert (E : map (fun r => (lineIndex r, startIndex r, endIndex r))
                (items (setLineLength st lineIndex_ length_ width))
              = map (fun r => (lineIndex r, startIndex r, endIndex r)) (items st)).
  { unfold setLineLength, withItems, items. cbn [CircularList.items].
    apply (alterFirst_addSample_spans _
             (fun r => (endIndex r - startIndex r) * width + length_)). }
  split; [exact E|]. split; [|split].
  - rewrite !rowCount_sumRows. apply sumRows_spans. exact E.
  - apply contiguousFrom_spans. exact E.
  - apply indexedFrom_spans. exact E.
Qed.

Lemma setLineLength_keeps_spans_witness :
  contiguous (setLineLength Examples.oneRow 0 10 80)
  /\ indexed (setLineLength Examples.oneRow 0 10 80).
Proof.
  destruct (setLineLength_keeps_spans Examples.oneRow 0 10 80) as (_ & _ & Hc & Hi).
  split; [apply Hc | apply Hi]; vm_compute; repeat split; discriminate.
Defined.

(** [relativeCharPosition] numbers the characters of a wrapped line row by
    row: for a row that some entry covers and a column [0 <= charIndex <
    width], the result lies within the line's [numRows * width] characters,
    its quotient by [width] is the row's offset in the line and its remainder
    is the column.  On a row that no entry covers the call throws. *)
Theorem relativeCharPosition_round_trip :
  forall (st : t) (charIndex row width : Z),
    0 <= charIndex < width ->
    match getRowIndex st row with
    | Some r =>
        exists p,
          relativeCharPosition st charIndex row width = Some p
          /\ 0 <= p < numRows r * width
          /\ p / width = row - startIndex r
          /\ p mod width = charIndex
    | None => relativeCharPosition st charIndex row width = None
    end.
Proof.
  intros st charIndex row width Hc. unfold relativeCharPosition.
  destruct (getRowIndex st row) as [r|] eqn:E; [|reflexivity].
  apply getRowIndex_sound in E. destruct E as (_ & Hrow).
  exists ((row - startIndex r) * width + charIndex).
  split; [reflexivity|]. split; [unfold numRows; nia|]. split.
  - symmetry. apply (Z.div_unique_pos _ _ _ charIndex); lia.
  - symmetry. apply (Z.mod_unique_pos _ _ (row - startIndex r)); lia.
Qed.

Lemma relativeCharPosition_round_trip_witness :
  exists p,
    relativeCharPosition
      (changeLineLength Examples.threeRows Examples.twoLines 4 (Some 3)) 2 3 4 = Some p
    /\ p / 4 = 2 /\ p mod 4 = 2.
Proof.
  pose proof (relativeCharPosition_round_trip
                (changeLineLength Examples.threeRows Examples.twoLines 4 (Some 3))
                2 3 4 ltac:(lia)) as H.
  change (getRowIndex (changeLineLength Examples.threeRows Examples.twoLines 4 (Some 3)) 3)
    with (Some (mkRow 1 1 7 (Some [25]))) in H.
  destruct H as (p & Hp & _ & Hdiv & Hmod).
  exists p. split; [exact Hp|]. split; [exact Hdiv | exact Hmod].
Defined.

Lemma alterFirst_sumRows (p : RowIndex -> bool) (f : RowIndex -> RowIndex) (l : list RowIndex) :
  (forall x, numRows (f x) = numRows x) ->
  sumRows (CircularList.alterFirst p f l) = sumRows l.
Proof.
  intros Hf. induction l as [|x l IH]; simpl; [reflexivity|].
  destruct (p x); simpl; [rewrite Hf | rewrite IH]; reflexivity.
Qed.

Lemma alterFirst_lineIndex (p : RowIndex -> bool) (f : RowIndex -> RowIndex) (l : list RowIndex) :
  (forall x, lineIndex (f x) = lineIndex x) ->
  map lineIndex (CircularList.alterFirst p f l) = map lineIndex l.
Proof.
  intros Hf. induction l as [|x l IH]; simpl; [reflexivity|].
  destruct (p x); simpl; [rewrite Hf | rewrite IH]; reflexivity.
Qed.

Lemma shiftLoop_keeps (n : nat) :
  forall i l,
    sumRows (shiftLoop n i l) = sumRows l
    /\ map lineIndex (shiftLoop n i l) = map lineIndex l.
Proof.
  induction n as [|n IH]; intros i l; simpl; [split; reflexivity|].
  destruct (IH (i + 1) (CircularList.alterFirst (hasLineIndex i) shiftRow l)) as (Hs & Hl).
  rewrite Hs, Hl. split.
  - apply alterFirst_sumRows. intros x. unfold numRows. simpl. lia.
  - apply alterFirst_lineIndex. reflexivity.
Qed.

Lemma alterFirst_grow (p : RowIndex -> bool) (l : list RowIndex) (r : RowIndex) :
  hd_error (List.filter p l) = Some r ->
  sumRows (CircularList.alterFirst p growRow l) = sumRows l + 1.
Proof.
  induction l as [|x l IH]; simpl; [discriminate|].
  destruct (p x); simpl; intros H.
  - unfold numRows. simpl. lia.
  - rewrite (IH H). lia.
Qed.

(** [addRowToLine] throws exactly when no entry covers the row, and then it
    has changed nothing.  When it returns, on any state, [rowCount] has grown
    by exactly one and every entry has kept its [lineIndex]. *)
Theorem addRowToLine_throws_iff_uncovered :
  forall (st : t) (row : Z),
    (returns (addRowToLine st row) = false
     <-> forall r, In r (items st) -> ~ (startIndex r <= row <= endIndex r))
    /\ (returns (addRowToLine st row) = false -> addRowToLine st row = Throws st)
    /\ (forall st',
          addRowToLine st row = Returns st' ->
          rowCount st' = rowCount st + 1
          /\ map lineIndex (items st') = map lineIndex (items st)).
Proof.
  intros st row. rewrite <- getRowIndex_none. unfold addRowToLine.
  destruct (getRowIndex st row) as [r|] eqn:E; cbn [returns].
  - split; [split; discriminate|]. split; [discriminate|].
    intros st' H. injection H as <-.
    rewrite !rowCount_sumRows. unfold withItems, items. cbn [CircularList.items].
    match goal with |- context [shiftLoop ?n ?i ?l] =>
      destruct (shiftLoop_keeps n i l) as (Hs & Hl) end.
    rewrite Hs, Hl. split.
    + apply (alterFirst_grow _ _ r). exact E.
    + apply alterFirst_lineIndex. reflexivity.
  - split; [split; reflexivity|]. split; [reflexivity | discriminate].
Qed.

Lemma addRowToLine_throws_iff_uncovered_witness :
  returns (addRowToLine Examples.evictedTwo 0) = false
  /\ rowCount (stateOf (addRowToLine Examples.evictedTwo 1))
     = rowCount Examples.evictedTwo + 1.
Proof.
  split.
  - apply (addRowToLine_throws_iff_uncovered Examples.evictedTwo 0).
    intros r [<-|[<-|[]]]; simpl; lia.
  - destruct (addRowToLine_throws_iff_uncovered Examples.evictedTwo 1) as (_ & _ & H).
    apply (H (stateOf (addRowToLine Examples.evictedTwo 1)) eq_refl).
Defined.

Lemma changeLoop_frame lines w cp (rows : list RowIndex) :
  forall prev fc,
    map lineIndex (changeLoop lines w cp prev fc rows) = map lineIndex rows
    /\ map lineLength (changeLoop lines w cp prev fc rows) = map lineLength rows.
Proof.
  induction rows as [|r rows IH]; intros prev fc; simpl; [split; reflexivity|].
  destruct (CircularList.get lines (lineIndex r));
    [destruct (lineLength r) eqn:El; [|destruct fc]|]; simpl;
    match goal with |- context [changeLoop _ _ _ ?p ?f rows] =>
      destruct (IH p f) as (H1 & H2) end;
    rewrite H1, H2, ?El; split; reflexivity.
Qed.

(** [changeLineLength] re-lays the spans from wherever the first entry
    starts: it keeps the number of entries, every [lineIndex], every cached
    length and the first entry's [startIndex] [s0], and, when the entries
    without a line span at least one row, the spans afterwards partition
    [s0, s0 + rowCount). *)
Theorem changeLineLength_relays_from_first :
  forall (st : t) (lines : Buffer) (width : Z) (cursorPos : option Z) (first : RowIndex),
    1 <= width ->
    hd_error (items st) = Some first ->
    orphansSpan lines (items st) ->
    let st' := changeLineLength st lines width cursorPos in
    map lineIndex (items st') = map lineIndex (items st)
    /\ map lineLength (items st') = map lineLength (items st)
    /\ contiguousFrom (startIndex first) (items st')
    /\ (forall row,
          coverCount st' row
          = if (startIndex first <=? row) && (row <? startIndex first + rowCount st')
            then 1%nat else 0%nat).
Proof.
  intros st lines width cursorPos first _ Hfirst Horph st'.
  destruct (changeLoop_frame lines width cursorPos (items st) None false) as (Hli & Hll).
  assert (Hc : contiguousFrom (startIndex first) (items st')).
  { pose proof (changeLoop_contiguous lines width cursorPos _ Horph None false) as H.
    unfold Reflow.layoutStart in H.
    destruct (items st) as [|r l] eqn:E; [discriminate|].
    injection Hfirst as <-. unfold st', changeLineLength, withItems, items in *.
    cbn [CircularList.items]. rewrite E. exact H. }
  split; [exact Hli|]. split; [exact Hll|]. split; [exact Hc|].
  intros row. unfold coverCount, CircularList.filter.
  rewrite rowCount_sumRows. unfold items in Hc |- *.
  apply (contiguousFrom_cover _ _ row Hc).
Qed.

Lemma changeLineLength_relays_from_first_witness :
  contiguousFrom 1
    (items (changeLineLength Examples.evictedTwo Examples.twoLines 4 (Some 9))).
Proof.
  destruct (changeLineLength_relays_from_first Examples.evictedTwo Examples.twoLines
              4 (Some 9) (mkRow 1 1 1 None)) as (_ & _ & H & _).
  - lia.
  - reflexivity.
  - intros r [<-|[<-|[]]] _; simpl; lia.
  - exact H.
Defined.

End LineWrapMore.

(** * Further properties of trimming and chunking *)
Module ChunkMore.
Import Renderer ChunkFacts.

(** Below [min] the scan of [trimBlank] may stop early or late, but it
    always ends below [min]; from [min] on it does not look at [blank]. *)
Lemma trimScan_blank_irrelevant (line : Line) (min blank blank' : Z) (n : nat) :
  (trimScan line min blank n < min /\ trimScan line min blank' n < min)
  \/ trimScan line min blank n = trimScan line min blank' n.
Proof.
  induction n as [|n IH]; [right; reflexivity|].
  pose proof (trimScan_bounds line min blank n) as Hb.
  pose proof (trimScan_bounds line min blank' n) as Hb'.
  cbn [trimScan]. destruct (nth_error line n) as [c|]; [|right; reflexivity].
  destruct (Z.of_nat n >=? min) eqn:E.
  - destruct (negb (ch c =? " ")%string); [right; reflexivity | exact IH].
  - rewrite Z.geb_leb in E. apply Z.leb_gt in E. left.
    destruct (negb (ch c =? " ")%string || negb (attr c =? blank));
      destruct (negb (ch c =? " ")%string || negb (attr c =? blank')); lia.
Qed.

(** The result of [trimBlank] does not depend on its third argument: the
    default-blank test only applies below [min], and nothing below [min] is
    ever cut. *)
Theorem trimBlank_ignores_blank :
  forall (line : Line) (min blank blank' : Z),
    trimBlank line min blank = trimBlank line min blank'.
Proof.
  intros line min blank blank'. unfold trimBlank.
  destruct (trimScan_blank_irrelevant line min blank blank' (List.length line))
    as [(H & H') | ->]; [|reflexivity].
  apply Z.ltb_lt in H, H'. rewrite H, H'. reflexivity.
Qed.

(** Where the scan stops at or above [min], it stops on a character that is
    not a blank. *)
Lemma trimScan_stops_on_text (line : Line) (min blank : Z) (n : nat) :
  0 <= min -> (n <= List.length line)%nat ->
  min <= trimScan line min blank n ->
  exists c,
    nth_error line (Z.to_nat (trimScan line min blank n)) = Some c
    /\ ch c <> " "%string.
Proof.
  intros Hmin. induction n as [|n IH]; intros Hn; cbn [trimScan]; [lia|].
  pose proof (trimScan_bounds line min blank n) as Hb.
  destruct (nth_error line n) as [c|] eqn:En.
  - destruct (Z.of_nat n >=? min) eqn:E.
    + destruct (ch c =? " ")%string eqn:Eb; cbn [negb]; [apply IH; lia|].
      intros _. exists c. rewrite Nat2Z.id. split; [exact En|].
      apply String.eqb_neq. exact Eb.
    + rewrite Z.geb_leb in E. apply Z.leb_gt in E.
      destruct (negb (ch c =? " ")%string || negb (attr c =? blank)); intros H; lia.
  - apply nth_error_None in En. lia.
Qed.

(** What [trimBlank] keeps, for [min >= 0]: a prefix of the line that is at
    least [min] cells long (the whole line if it is no longer than [min]);
    every cell it drops holds a blank; and where it cuts above [min], the
    prefix ends with the last character that is not a blank followed by a
    single blank. *)
Theorem trimBlank_shape :
  forall (line : Line) (min blank : Z),
    0 <= min ->
    let kept := trimBlank line min blank in
    kept = firstn (List.length kept) line
    /\ (Nat.min (Z.to_nat min) (List.length line) <= List.length kept)%nat
    /\ (Z.of_nat (List.length line) <= min -> kept = line)
    /\ (forall k c,
          (List.length kept <= k)%nat -> nth_error line k = Some c ->
          ch c = " "%string)
    /\ ((Z.to_nat min < List.length kept < List.length line)%nat ->
        exists c b,
          nth_error kept (List.length kept - 2) = Some c /\ ch c <> " "%string
          /\ nth_error kept (List.length kept - 1) = Some b /\ ch b = " "%string).
Proof.
  intros line min blank Hmin kept.
  pose proof (trimScan_bounds line min blank (List.length line)) as Hb.
  set (i := trimScan line min blank (List.length line)) in *.
  assert (Hblank : forall k c, i < Z.of_nat k -> nth_error line k = Some c ->
                               ch c = " "%string).
  { intros k c Hk Hc.
    apply (trimScan_blank_above line min blank (List.length line) k c Hk); [|exact Hc].
    apply nth_error_Some. rewrite Hc. discriminate. }
  assert (Hcut : exists j, i < j /\ min <= j /\ kept = firstn (Z.to_nat j) line
                           /\ (min < j -> j = i + 2 /\ min <= i)).
  { unfold kept, trimBlank. fold i.
    destruct (i <? min) eqn:E; [apply Z.ltb_lt in E | apply Z.ltb_ge in E].
    - exists min. rewrite slice_from_zero by lia. repeat split; lia.
    - exists (i + 2). rewrite slice_from_zero by lia. repeat split; lia. }
  destruct Hcut as (j & Hij & Hmj & Hkept & Hslack).
  assert (Hlen : List.length kept = Nat.min (Z.to_nat j) (List.length line))
    by (rewrite Hkept; apply length_firstn).
  split; [|split; [|split; [|split]]].
  - rewrite Hlen, Hkept.
    destruct (Nat.le_ge_cases (Z.to_nat j) (List.length line)) as [H|H].
    + rewrite Nat.min_l by exact H. reflexivity.
    + rewrite Nat.min_r by exact H. rewrite firstn_all. apply firstn_all2. exact H.
  - lia.
  - intros Hshort. rewrite Hkept. apply firstn_all2. lia.
  - intros k c Hk Hc. apply (Hblank k c); [|exact Hc].
    assert (k < List.length line)%nat by (apply nth_error_Some; rewrite Hc; discriminate).
    lia.
  - intros Hcutabove. destruct Hslack as (-> & Hmi); [lia|].
    assert (Hk : List.length kept = Z.to_nat (i + 2)) by lia.
    destruct (trimScan_stops_on_text line min blank (List.length line) Hmin
                (Nat.le_refl _) Hmi) as (c & Hc & Hne).
    fold i in Hc.
    destruct (nth_error line (S (Z.to_nat i))) as [b|] eqn:Eb;
      [| apply nth_error_None in Eb; lia].
    exists c, b. rewrite Hk, Hkept, !nth_error_firstn.
    replace (Z.to_nat (i + 2) - 2)%nat with (Z.to_nat i) by lia.
    replace (Z.to_nat (i + 2) - 1)%nat with (S (Z.to_nat i)) by lia.
    replace (Z.to_nat i <? Z.to_nat (i + 2))%nat with true
      by (symmetry; apply Nat.ltb_lt; lia).
    replace (S (Z.to_nat i) <? Z.to_nat (i + 2))%nat with true
      by (symmetry; apply Nat.ltb_lt; lia).
    split; [exact Hc|]. split; [exact Hne|]. split; [exact Eb|].
    apply (Hblank (S (Z.to_nat i)) b); [lia | exact Eb].
Qed.

Lemma trimBlank_shape_witness :
  exists c b,
    nth_error (trimBlank (repeat Examples.letter 12 ++ repeat Examples.blank 13) 10 0) 11
    = Some c /\ ch c <> " "%string
    /\ nth_error (trimBlank (repeat Examples.letter 12 ++ repeat Examples.blank 13) 10 0) 12
       = Some b /\ ch b = " "%string.
Proof.
  destruct (trimBlank_shape (repeat Examples.letter 12 ++ repeat Examples.blank 13) 10 0
              ltac:(lia)) as (_ & _ & _ & _ & H).
  apply H. vm_compute. split; apply Nat.leb_le; reflexivity.
Defined.

(** *** chunkArray *)

Section Chunks.
Context {A : Type}.

(** The cells held by chunks of which all but the last are full. *)
Lemma fullButLast_size (size : nat) (segs : list (list A)) :
  fullButLast size segs -> segs <> [] ->
  ((List.length segs - 1) * size < List.length (List.concat segs)
   <= List.length segs * size)%nat.
Proof.
  induction segs as [|seg rest IH]; intros Hfull Hne; [contradiction|].
  cbn [fullButLast] in Hfull. cbn [List.concat List.length]. rewrite length_app.
  destruct rest as [|seg' rest].
  - cbn [List.concat List.length]. lia.
  - destruct Hfull as (Hseg & Hrest).
    specialize (IH Hrest ltac:(discriminate)). cbn [List.length] in IH |- *. nia.
Qed.

(** [chunkArray] with a chunk size of at least 1 ends and cuts the array
    into consecutive chunks: their concatenation is the array, all but the
    last hold [chunkSize] elements and the last between 1 and [chunkSize],
    so a non-empty array of [n] elements gives [ceil(n / chunkSize)] chunks;
    the empty array gives none. *)
Theorem chunkArray_round_trip :
  forall (array : list A) (chunkSize : Z),
    1 <= chunkSize ->
    exists segs,
      chunkArray array chunkSize = Some segs
      /\ List.concat segs = array
      /\ fullButLast (Z.to_nat chunkSize) segs
      /\ (array = [] <-> segs = [])
      /\ (array <> [] ->
          (Z.of_nat (List.length segs) - 1) * chunkSize
          < Z.of_nat (List.length array)
          <= Z.of_nat (List.length segs) * chunkSize).
Proof.
  intros array chunkSize Hsize.
  destruct (chunkLoop_run array (Z.to_nat chunkSize) ltac:(lia)
              (List.length array) 0%nat [] ltac:(lia))
    as (segs & Hrun & Hcat & Hfull & Hnil & Hcons).
  rewrite Z2Nat.id in Hrun by lia. cbn [skipn app] in Hrun, Hcat.
  exists segs. split; [exact Hrun|]. split; [exact Hcat|]. split; [exact Hfull|].
  split.
  - split.
    + intros ->. apply Hnil. simpl. lia.
    + intros ->. rewrite <- Hcat. reflexivity.
  - intros Hne.
    assert (Hsegs : segs <> []).
    { apply Hcons. destruct array; [contradiction | simpl; lia]. }
    pose proof (fullButLast_size _ _ Hfull Hsegs) as Hb.
    rewrite Hcat in Hb.
    destruct segs as [|seg rest]; [contradiction|].
    cbn [List.length] in Hb |- *. nia.
Qed.

(** With a chunk size below 1 the loop of [chunkArray] never ends on a
    non-empty array: no number of iterations brings [i] to the length. *)
Theorem chunkArray_diverges :
  forall (array : list A) (chunkSize : Z),
    chunkSize <= 0 -> array <> [] ->
    forall fuel, chunkLoop fuel array chunkSize 0 [] = None.
Proof.
  intros array chunkSize Hsize Hne fuel.
  assert (Hgen : forall i acc, i < Z.of_nat (List.length array) ->
                               chunkLoop fuel array chunkSize i acc = None).
  { induction fuel as [|fuel IH]; intros i acc Hi; cbn [chunkLoop];
      apply Z.ltb_lt in Hi; rewrite Hi; [reflexivity|].
    apply IH. apply Z.ltb_lt in Hi. lia. }
  apply Hgen. destruct array; [contradiction | simpl List.length; lia].
Qed.

End Chunks.

Lemma chunkArray_round_trip_witness :
  exists segs,
    chunkArray [1; 2; 3; 4; 5; 6; 7] 3 = Some segs
    /\ List.concat segs = [1; 2; 3; 4; 5; 6; 7].
Proof.
  destruct (chunkArray_round_trip [1; 2; 3; 4; 5; 6; 7] 3 ltac:(lia))
    as (segs & Hrun & Hcat & _).
  exists segs. split; [exact Hrun | exact Hcat].
Defined.

Lemma chunkArray_diverges_witness :
  chunkLoop 1000 [1; 2; 3] 0 0 [] = None.
Proof. apply chunkArray_diverges; [lia | discriminate]. Defined.

End ChunkMore.

(** * Further properties of the render scheduler *)
Module SchedulerMore.
Import Renderer Scheduler SchedulerFacts.

(** One step of each kind keeps the invariant. *)
Lemma queueRefresh_consistent (r : t) (s e : Z) :
  consistent r ->
  consistent (fst (queueRefresh r s e))
  /\ _refreshFramesSkipped (fst (queueRefresh r s e)) = _refreshFramesSkipped r.
Proof.
  unfold consistent, queueRefresh. intros Hc.
  destruct (_refreshAnimationFrame r) eqn:Ea; cbn [negb fst _refreshAnimationFrame
    _refreshRowsQueue _refreshFramesSkipped];
    (split; [|reflexivity]); destruct (_refreshRowsQueue r); simpl; congruence.
Qed.

Lemma refreshLoop_consistent (term : Terminal) (r : t) :
  consistent r -> _refreshAnimationFrame r = true ->
  0 <= _refreshFramesSkipped r <= MAX_REFRESH_FRAME_SKIP + 1 ->
  exists r' effects,
    _refreshLoop term r = (Returns r', effects)
    /\ consistent r'
    /\ 0 <= _refreshFramesSkipped r' <= MAX_REFRESH_FRAME_SKIP + 1
    /\ (existsb isRefresh effects = false ->
        _refreshAnimationFrame r' = true
        /\ writeBuffer term <> []
        /\ _refreshFramesSkipped r' = _refreshFramesSkipped r + 1
        /\ _refreshFramesSkipped r <= MAX_REFRESH_FRAME_SKIP).
Proof.
  intros Hc Harmed Hskip. unfold consistent in Hc. rewrite Harmed in Hc.
  change (MAX_REFRESH_FRAME_SKIP + 1) with 6 in *.
  destruct (_refreshRowsQueue r) as [|q queue] eqn:Eq; [discriminate|].
  destruct (writeBuffer term) as [|w wb] eqn:Ew.
  - destruct (refreshLoop_paints term r q queue Eq (or_introl Ew))
      as (s & e & Hloop & _).
    exists (mk [] 0 false), [Refresh s e]. split; [exact Hloop|].
    split; [reflexivity|]. split; [simpl; lia|].
    discriminate.
  - destruct (Z_le_gt_dec (_refreshFramesSkipped r) MAX_REFRESH_FRAME_SKIP) as [Hle|Hgt].
    + exists (mk (_refreshRowsQueue r) (_refreshFramesSkipped r + 1) true),
             [RequestAnimationFrame].
      split; [apply refreshLoop_skips; [rewrite Ew; discriminate | exact Hle]|].
      split; [unfold consistent; simpl; rewrite Eq; reflexivity|].
      split; [unfold MAX_REFRESH_FRAME_SKIP in Hle; simpl; lia|].
      intros _. simpl. repeat split; try lia. discriminate.
    + assert (Hlt : MAX_REFRESH_FRAME_SKIP < _refreshFramesSkipped r) by lia.
      destruct (refreshLoop_paints term r q queue Eq (or_intror Hlt))
        as (s & e & Hloop & _).
      exists (mk [] 0 false), [Refresh s e]. split; [exact Hloop|].
      split; [reflexivity|]. split; [simpl; lia|].
      discriminate.
Qed.

(** Whatever calls of [queueRefresh] and animation frames follow one another,
    starting from a renderer that has a frame requested exactly when its queue
    is non-empty and whose skip counter lies in [0, 6]: no frame callback
    ever throws (it never meets an empty queue), a frame stays requested
    exactly while ranges are queued, and the skip counter stays in [0, 6]. *)
Theorem scheduler_never_throws :
  forall (events : list Event) (r : t),
    consistent r ->
    0 <= _refreshFramesSkipped r <= MAX_REFRESH_FRAME_SKIP + 1 ->
    exists r' effects,
      runEvents events r = (Returns r', effects)
      /\ consistent r'
      /\ 0 <= _refreshFramesSkipped r' <= MAX_REFRESH_FRAME_SKIP + 1.
Proof.
  induction events as [|ev events IH]; intros r Hc Hskip.
  - exists r, []. repeat split; auto; lia.
  - destruct ev as [s e | term]; cbn [runEvents].
    + destruct (queueRefresh_consistent r s e Hc) as (Hc1 & Hs1).
      destruct (queueRefresh r s e) as [r1 eff1]. cbn [fst] in *.
      destruct (IH r1 Hc1 ltac:(lia)) as (r' & eff & Hrun & Hc' & Hs').
      rewrite Hrun. exists r', (eff1 ++ eff). auto.
    + destruct (_refreshAnimationFrame r) eqn:Ea.
      * destruct (refreshLoop_consistent term r Hc Ea Hskip)
          as (r1 & eff1 & Hloop & Hc1 & Hs1 & _).
        rewrite Hloop.
        destruct (IH r1 Hc1 Hs1) as (r' & eff & Hrun & Hc' & Hs').
        rewrite Hrun. exists r', (eff1 ++ eff). auto.
      * apply IH; assumption.
Qed.

Lemma scheduler_never_throws_witness :
  exists r' effects,
    runEvents [QueueRefresh 1 2; AnimationFrame (mkTerminal ["x"%string] 24);
               QueueRefresh 0 5; AnimationFrame (mkTerminal [] 24)]
              (mk [] 0 false)
    = (Returns r', effects)
    /\ consistent r'.
Proof.
  destruct (scheduler_never_throws
              [QueueRefresh 1 2; AnimationFrame (mkTerminal ["x"%string] 24);
               QueueRefresh 0 5; AnimationFrame (mkTerminal [] 24)]
              (mk [] 0 false) eq_refl)
    as (r' & effects & Hrun & Hc & _).
  - unfold MAX_REFRESH_FRAME_SKIP. simpl. lia.
  - exists r', effects. split; [exact Hrun | exact Hc].
Defined.

(** Backpressure cannot starve the display: with ranges queued and a frame
    requested, seven animation frames in a row always contain a repaint,
    however full the write buffer stays. *)
Theorem backlog_cannot_starve :
  forall (terms : list Terminal) (r : t),
    consistent r ->
    _refreshAnimationFrame r = true ->
    0 <= _refreshFramesSkipped r <= MAX_REFRESH_FRAME_SKIP + 1 ->
    MAX_REFRESH_FRAME_SKIP + 2 <= _refreshFramesSkipped r + Z.of_nat (List.length terms) ->
    existsb isRefresh (snd (runEvents (map AnimationFrame terms) r)) = true.
Proof.
  unfold MAX_REFRESH_FRAME_SKIP.
  induction terms as [|term terms IH]; intros r Hc Harmed Hskip Hlen.
  - simpl in Hlen. lia.
  - cbn [map runEvents]. rewrite Harmed.
    destruct (refreshLoop_consistent term r Hc Harmed Hskip)
      as (r1 & eff1 & Hloop & Hc1 & Hs1 & Hskipped).
    rewrite Hloop.
    destruct (runEvents (map AnimationFrame terms) r1) as [res eff] eqn:Erun.
    cbn [snd]. rewrite existsb_app.
    destruct (existsb isRefresh eff1) eqn:E1; [reflexivity|].
    destruct (Hskipped eq_refl) as (Ha1 & _ & Hs & _).
    unfold MAX_REFRESH_FRAME_SKIP in Hs1.
    cbn [orb]. specialize (IH r1 Hc1 Ha1 Hs1).
    rewrite Erun in IH. apply IH. cbn [List.length] in Hlen. lia.
Qed.

Lemma backlog_cannot_starve_witness :
  existsb isRefresh
    (snd (runEvents (map AnimationFrame (repeat (mkTerminal ["x"%string] 24) 7))
            (mk [mkRange 1 2] 0 true))) = true.
Proof.
  apply backlog_cannot_starve.
  - reflexivity.
  - reflexivity.
  - unfold MAX_REFRESH_FRAME_SKIP. simpl. lia.
  - unfold MAX_REFRESH_FRAME_SKIP. simpl. lia.
Defined.

(** A skipped frame loses nothing: it leaves the queue as it is and keeps a
    frame requested, so a range queued before any number of skipped frames is
    still in the queue, in order, with the ranges queued in between. *)
Theorem skipped_frame_keeps_queue :
  forall (term : Terminal) (r : t) (ranges : list DirtyRange),
    writeBuffer term <> [] ->
    _refreshFramesSkipped r <= MAX_REFRESH_FRAME_SKIP ->
    exists r1,
      _refreshLoop term r = (Returns r1, [RequestAnimationFrame])
      /\ _refreshRowsQueue (fst (queueAll r1 ranges)) = _refreshRowsQueue r ++ ranges
      /\ _refreshAnimationFrame (fst (queueAll r1 ranges)) = true
      /\ snd (queueAll r1 ranges) = [].
Proof.
  intros term r ranges Hwb Hle.
  exists (mk (_refreshRowsQueue r) (_refreshFramesSkipped r + 1) true).
  split; [apply refreshLoop_skips; assumption|].
  rewrite queueAll_spec. cbn [fst snd _refreshRowsQueue _refreshAnimationFrame].
  destruct ranges; repeat split.
Qed.

Lemma skipped_frame_keeps_queue_witness :
  exists r1,
    _refreshLoop (mkTerminal ["x"%string] 24) (mk [mkRange 1 2] 0 true)
    = (Returns r1, [RequestAnimationFrame])
    /\ _refreshRowsQueue (fst (queueAll r1 [mkRange 4 5])) = [mkRange 1 2; mkRange 4 5].
Proof.
  destruct (skipped_frame_keeps_queue (mkTerminal ["x"%string] 24)
              (mk [mkRange 1 2] 0 true) [mkRange 4 5])
    as (r1 & Hloop & Hq & _).
  - discriminate.
  - unfold MAX_REFRESH_FRAME_SKIP. simpl. lia.
  - exists r1. split; [exact Hloop | exact Hq].
Defined.

End SchedulerMore.

(** * Further properties of the cell compositor *)
Module CompositorMore.
Import Renderer Compositor CompositorFacts.

Lemma boldColor_nonneg (bold : bool) (index : Z) : 0 <= index -> 0 <= boldColor bold index.
Proof. unfold boldColor. intros H. destruct (bold && (index <? 8)); lia. Qed.

Lemma emitted_nonneg (data : Z) : 0 <= emittedBg data /\ 0 <= emittedFg data.
Proof.
  pose proof (storedBg_range data) as Hb. pose proof (storedFg_range data) as Hf.
  pose proof (boldColor_nonneg (hasFlag data FLAGS.BOLD) _ (proj1 Hb)) as Hbb.
  pose proof (boldColor_nonneg (hasFlag data FLAGS.BOLD) _ (proj1 Hf)) as Hbf.
  unfold emittedBg, emittedFg. cbv zeta.
  destruct (hasFlag data FLAGS.INVERSE); split; split_ifs; lia.
Qed.

(** A colour class that [decode] emits names a palette entry: its index is
    the run's final background (respectively foreground) and lies in
    [0, 255]; an index of 256 or more yields no class. *)
Theorem decode_colour_classes_in_palette :
  forall (brokenBold : bool) (data n : Z),
    (In (XtermBgColor n) (classNames (decode brokenBold data)) <->
     n = bg (decode brokenBold data) /\ n < 256)
    /\ (In (XtermColor n) (classNames (decode brokenBold data)) <->
        n = fg (decode brokenBold data) /\ n < 256)
    /\ 0 <= bg (decode brokenBold data)
    /\ 0 <= fg (decode brokenBold data).
Proof.
  intros brokenBold data n. rewrite decode_normal. cbn [classNames bg fg].
  destruct (emitted_nonneg data) as (Hb & Hf).
  unfold flagClasses, colourClasses. rewrite !in_app_iff.
  split; [|split; [|split; assumption]].
  - split.
    + split_ifs; cbn [In]; intros H; decided;
        repeat match goal with H : _ \/ _ |- _ => destruct H as [H|H] end;
        try discriminate H; try (exfalso; exact H);
        injection H as <-; split; lia.
    + intros (-> & Hlt). apply Z.ltb_lt in Hlt. rewrite Hlt.
      right. left. left. reflexivity.
  - split.
    + split_ifs; cbn [In]; intros H; decided;
        repeat match goal with H : _ \/ _ |- _ => destruct H as [H|H] end;
        try discriminate H; try (exfalso; exact H);
        injection H as <-; split; lia.
    + intros (-> & Hlt). apply Z.ltb_lt in Hlt. rewrite Hlt.
      right. right. left. reflexivity.
Qed.

(** *** Markup of a line *)

Lemma finalDepth_app (a b : list Token) :
  forall d,
    finalDepth (a ++ b) d
    = match finalDepth a d with
      | Some d' => finalDepth b d'
      | None => None
      end.
Proof.
  induction a as [|tok a IH]; intros d; [reflexivity|].
  destruct tok; cbn [app finalDepth]; try apply IH.
  destruct d; [reflexivity | apply IH].
Qed.

Lemma transition_depth (brokenBold : bool) (defAttr attr_ data : Z) :
  finalDepth (transition brokenBold defAttr attr_ data) (depthOf defAttr attr_)
  = Some (depthOf defAttr data).
Proof.
  unfold transition, depthOf, openSpan.
  destruct (data =? attr_) eqn:E; [apply Z.eqb_eq in E; subst; reflexivity|].
  destruct (attr_ =? defAttr), (data =? defAttr), (data =? -1); reflexivity.
Qed.

Lemma renderLoop_depth (brokenBold : bool) (defAttr x : Z) (line : Line) (n : nat) :
  forall i attr_ out,
    finalDepth out 0 = Some (depthOf defAttr attr_) ->
    finalDepth (snd (renderLoop brokenBold defAttr x line n i attr_ out)) 0
    = Some (depthOf defAttr (fst (renderLoop brokenBold defAttr x line n i attr_ out))).
Proof.
  induction n as [|n IH]; intros i attr_ out Hout; [exact Hout|].
  cbn [renderLoop].
  destruct (match nth_error line (Z.to_nat i) with
            | Some c => (attr c, ch c, chWidth c)
            | None => (defAttr, " "%string, 1)
            end) as [[data ch_] ch_width].
  destruct (ch_width =? 0); [apply IH; exact Hout|].
  apply IH. cbv zeta.
  destruct (ch_width =? 2); rewrite !finalDepth_app, Hout; cbn iota;
    rewrite transition_depth; reflexivity.
Qed.

(** The markup of a line is well nested, whatever the line, the width and
    the cursor column: no [</span>] closes a span that was not opened, and
    every span that was opened is closed by the end of the line. *)
Theorem renderLine_well_nested :
  forall (brokenBold : bool) (defAttr width x : Z) (line : Line),
    wellNested (renderLine brokenBold defAttr width x line).
Proof.
  intros brokenBold defAttr width x line. unfold wellNested, renderLine.
  pose proof (renderLoop_depth brokenBold defAttr x line (Z.to_nat width) 0 defAttr []) as H.
  destruct (renderLoop brokenBold defAttr x line (Z.to_nat width) 0 defAttr [])
    as [attr_ out].
  cbn [fst snd] in H. unfold depthOf in H. rewrite Z.eqb_refl in H.
  specialize (H eq_refl).
  destruct (attr_ =? defAttr); [exact H|].
  rewrite finalDepth_app, H. reflexivity.
Qed.

(** One iteration over a cell of width 1 that is not under the cursor. *)
Lemma renderLoop_step (brokenBold : bool) (defAttr x : Z) (pre post : Line) (c : Cell)
    (n : nat) (attr_ : Z) (out : list Token) :
  chWidth c = 1 -> x <> Z.of_nat (List.length pre) ->
  renderLoop brokenBold defAttr x (pre ++ c :: post) (S n)
    (Z.of_nat (List.length pre)) attr_ out
  = renderLoop brokenBold defAttr x (pre ++ c :: post) n
      (Z.of_nat (List.length (pre ++ [c]))) (attr c)
      (out ++ transition brokenBold defAttr attr_ (attr c) ++ [cellText c]).
Proof.
  intros Hw Hx. cbn [renderLoop].
  rewrite Nat2Z.id, nth_error_app2, Nat.sub_diag by lia. cbn [nth_error].
  rewrite Hw. cbn [Z.eqb Pos.eqb].
  replace (Z.of_nat (List.length pre) =? x) with false
    by (symmetry; apply Z.eqb_neq; lia).
  rewrite length_app, <- app_assoc. cbn [List.length].
  replace (Z.of_nat (List.length pre) + 1) with (Z.of_nat (List.length pre + 1)) by lia.
  reflexivity.
Qed.

(** The iteration over the cell under the cursor. *)
Lemma renderLoop_step_cursor (brokenBold : bool) (defAttr : Z) (pre post : Line) (c : Cell)
    (n : nat) (attr_ : Z) (out : list Token) :
  chWidth c = 1 ->
  renderLoop brokenBold defAttr (Z.of_nat (List.length pre)) (pre ++ c :: post) (S n)
    (Z.of_nat (List.length pre)) attr_ out
  = renderLoop brokenBold defAttr (Z.of_nat (List.length pre)) (pre ++ c :: post) n
      (Z.of_nat (List.length (pre ++ [c]))) (-1)
      (out ++ transition brokenBold defAttr attr_ (-1) ++ [cellText c]).
Proof.
  intros Hw. cbn [renderLoop].
  rewrite Nat2Z.id, nth_error_app2, Nat.sub_diag by lia. cbn [nth_error].
  rewrite Hw. cbn [Z.eqb Pos.eqb]. rewrite Z.eqb_refl.
  rewrite length_app, <- app_assoc. cbn [List.length].
  replace (Z.of_nat (List.length pre) + 1) with (Z.of_nat (List.length pre + 1)) by lia.
  reflexivity.
Qed.

Lemma transition_same (brokenBold : bool) (defAttr a : Z) :
  transition brokenBold defAttr a a = [].
Proof. unfold transition. rewrite Z.eqb_refl. reflexivity. Qed.

(** The iterations over a block of cells that carry the running attribute. *)
Lemma renderLoop_same (brokenBold : bool) (defAttr x a : Z) (block : Line) :
  Forall (fun c => attr c = a /\ chWidth c = 1) block ->
  forall (pre post : Line) (n : nat) (out : list Token),
    (x < Z.of_nat (List.length pre)
     \/ Z.of_nat (List.length pre + List.length block) <= x) ->
    renderLoop brokenBold defAttr x (pre ++ block ++ post) (List.length block + n)
      (Z.of_nat (List.length pre)) a out
    = renderLoop brokenBold defAttr x (pre ++ block ++ post) n
        (Z.of_nat (List.length (pre ++ block))) a (out ++ map cellText block).
Proof.
  induction 1 as [|c block (Ha & Hw) _ IH]; intros pre post n out Hx.
  - cbn [List.length Nat.add map app]. rewrite !app_nil_r. reflexivity.
  - cbn [List.length Nat.add app map] in *.
    rewrite renderLoop_step by (auto; lia).
    rewrite Ha, transition_same. cbn [app].
    replace (pre ++ c :: block ++ post) with ((pre ++ [c]) ++ block ++ post)
      by (rewrite <- app_assoc; reflexivity).
    rewrite IH by (rewrite length_app; cbn [List.length]; lia).
    rewrite <- !app_assoc. reflexivity.
Qed.

(** The iterations over a non-empty block of cells of one attribute. *)
Lemma renderLoop_block (brokenBold : bool) (defAttr x a : Z) (c : Cell) (block : Line) :
  Forall (fun c => attr c = a /\ chWidth c = 1) (c :: block) ->
  forall (pre post : Line) (n : nat) (attr_ : Z) (out : list Token),
    (x < Z.of_nat (List.length pre)
     \/ Z.of_nat (List.length pre + S (List.length block)) <= x) ->
    renderLoop brokenBold defAttr x (pre ++ (c :: block) ++ post)
      (S (List.length block) + n) (Z.of_nat (List.length pre)) attr_ out
    = renderLoop brokenBold defAttr x (pre ++ (c :: block) ++ post) n
        (Z.of_nat (List.length (pre ++ c :: block))) a
        (out ++ transition brokenBold defAttr attr_ a ++ map cellText (c :: block)).
Proof.
  intros Hall pre post n attr_ out Hx.
  inversion Hall as [|? ? (Ha & Hw) Hblock]; subst.
  cbn [app Nat.add].
  rewrite renderLoop_step by (auto; lia).
  replace (pre ++ c :: block ++ post) with ((pre ++ [c]) ++ block ++ post)
    by (rewrite <- app_assoc; reflexivity).
  rewrite (renderLoop_same brokenBold defAttr x (attr c) block Hblock)
    by (rewrite length_app; cbn [List.length]; lia).
  rewrite <- !app_assoc. reflexivity.
Qed.

(** A row of one attribute is one run: with the cursor elsewhere, a
    non-empty line of width-1 cells that all carry the attribute [a] is
    rendered as its escaped characters, inside a single span unless [a] is
    the default attribute. *)
Theorem uniform_row_is_one_run :
  forall (brokenBold : bool) (defAttr x a : Z) (line : Line),
    line <> [] ->
    x < 0 \/ Z.of_nat (List.length line) <= x ->
    Forall (fun c => attr c = a /\ chWidth c = 1) line ->
    renderLine brokenBold defAttr (Z.of_nat (List.length line)) x line
    = if a =? defAttr then map cellText line
      else openSpan brokenBold a :: map cellText line ++ [SpanClose].
Proof.
  intros brokenBold defAttr x a line Hne Hx Hall.
  destruct line as [|c block]; [contradiction|].
  pose proof (renderLoop_block brokenBold defAttr x a c block Hall [] [] 0 defAttr []) as H.
  cbn [app List.length Nat.add] in H. rewrite app_nil_r, Nat.add_0_r in H.
  unfold renderLine. rewrite Nat2Z.id. cbn [List.length].
  change (Z.of_nat 0) with 0 in H. rewrite H by (cbn [List.length] in Hx; lia).
  cbn [renderLoop]. unfold transition.
  destruct (a =? defAttr) eqn:E.
  - reflexivity.
  - rewrite Z.eqb_refl. reflexivity.
Qed.

Lemma uniform_row_is_one_run_witness :
  renderLine false 131840 3 (-1) (repeat (mkCell 5 "a" 1) 3)
  = [SpanOpen [XtermBgColor 5; XtermColor 0];
     Text "a"; Text "a"; Text "a"; SpanClose].
Proof.
  assert (Hx : -1 < 0 \/ Z.of_nat (List.length (repeat (mkCell 5 "a" 1) 3)) <= -1)
    by (left; lia).
  assert (Hne : repeat (mkCell 5 "a" 1) 3 <> []) by discriminate.
  assert (Hall : Forall (fun c => attr c = 5 /\ chWidth c = 1) (repeat (mkCell 5 "a" 1) 3))
    by (repeat constructor).
  exact (uniform_row_is_one_run false 131840 (-1) 5 (repeat (mkCell 5 "a" 1) 3)
           Hne Hx Hall).
Defined.

(** An attribute change splits the row into two runs: with the cursor
    elsewhere, width-1 cells of attribute [a] followed by width-1 cells of a
    different attribute [b], neither the default, are rendered as one span
    for the first block, closed where the attribute changes, and one span
    for the second, closed at the end of the line. *)
Theorem attribute_change_splits_runs :
  forall (brokenBold : bool) (defAttr x a b : Z) (left right : Line),
    left <> [] -> right <> [] ->
    a <> b -> a <> defAttr -> b <> defAttr ->
    x < 0 \/ Z.of_nat (List.length (left ++ right)) <= x ->
    Forall (fun c => attr c = a /\ chWidth c = 1) left ->
    Forall (fun c => attr c = b /\ chWidth c = 1) right ->
    renderLine brokenBold defAttr (Z.of_nat (List.length (left ++ right))) x (left ++ right)
    = openSpan brokenBold a :: map cellText left
      ++ SpanClose :: openSpan brokenBold b :: map cellText right ++ [SpanClose].
Proof.
  intros brokenBold defAttr x a b left right Hl Hr Hab Ha Hb Hx Hleft Hright.
  destruct left as [|c1 l1]; [contradiction|].
  destruct right as [|c2 l2]; [contradiction|].
  rewrite length_app in Hx. cbn [List.length] in Hx.
  unfold renderLine. rewrite Nat2Z.id, length_app. cbn [List.length].
  pose proof (renderLoop_block brokenBold defAttr x a c1 l1 Hleft [] (c2 :: l2)
                (S (List.length l2)) defAttr []) as H1.
  cbn [app List.length] in H1. change (Z.of_nat 0) with 0 in H1.
  cbn [app]. rewrite H1 by lia. clear H1.
  pose proof (renderLoop_block brokenBold defAttr x b c2 l2 Hright (c1 :: l1) []
                0 a (transition brokenBold defAttr defAttr a ++ map cellText (c1 :: l1)))
    as H2.
  rewrite app_nil_r, Nat.add_0_r in H2.
  change ((c1 :: l1) ++ c2 :: l2) with (c1 :: l1 ++ c2 :: l2) in H2.
  change (List.length (c1 :: l1)) with (S (List.length l1)) in H2.
  rewrite H2 by lia. clear H2.
  cbn [renderLoop]. unfold transition.
  apply Z.eqb_neq in Ha, Hb. pose proof Hab as Hba.
  apply not_eq_sym in Hba. apply Z.eqb_neq in Hab, Hba.
  rewrite Ha, Hb, Hba, Z.eqb_refl. cbn [app map].
  rewrite <- !app_assoc. reflexivity.
Qed.

Lemma attribute_change_splits_runs_witness :
  renderLine false 131840 4 (-1) (repeat (mkCell 5 "a" 1) 2 ++ repeat (mkCell 6 "<" 1) 2)
  = [SpanOpen [XtermBgColor 5; XtermColor 0]; Text "a"; Text "a"; SpanClose;
     SpanOpen [XtermBgColor 6; XtermColor 0]; Text "&lt;"; Text "&lt;"; SpanClose].
Proof.
  assert (Hx : -1 < 0
               \/ Z.of_nat (List.length (repeat (mkCell 5 "a" 1) 2
                                          ++ repeat (mkCell 6 "<" 1) 2)) <= -1)
    by (left; lia).
  exact (attribute_change_splits_runs false 131840 (-1) 5 6
           (repeat (mkCell 5 "a" 1) 2) (repeat (mkCell 6 "<" 1) 2)
           ltac:(discriminate) ltac:(discriminate) ltac:(discriminate)
           ltac:(discriminate) ltac:(discriminate) Hx
           ltac:(repeat constructor) ltac:(repeat constructor)).
Defined.

(** The cursor overrides the stored attribute: on a line of default-attribute
    width-1 cells, the cell in the cursor column, whatever its attribute, is
    rendered alone inside the reverse-video cursor span (the default
    attribute is not -1). *)
Theorem cursor_cell_gets_cursor_span :
  forall (brokenBold : bool) (defAttr : Z) (before after : Line) (c : Cell),
    defAttr <> -1 ->
    chWidth c = 1 ->
    Forall (fun c => attr c = defAttr /\ chWidth c = 1) before ->
    Forall (fun c => attr c = defAttr /\ chWidth c = 1) after ->
    renderLine brokenBold defAttr
      (Z.of_nat (List.length (before ++ c :: after)))
      (Z.of_nat (List.length before)) (before ++ c :: after)
    = map cellText before
      ++ CursorOpen :: cellText c :: SpanClose :: map cellText after.
Proof.
  intros brokenBold defAttr before after c Hdef Hw Hbefore Hafter.
  unfold renderLine. rewrite Nat2Z.id, length_app. cbn [List.length].
  pose proof (renderLoop_same brokenBold defAttr (Z.of_nat (List.length before)) defAttr
                before Hbefore [] (c :: after) (S (List.length after)) []) as H1.
  cbn [app List.length] in H1. change (Z.of_nat 0) with 0 in H1.
  rewrite H1 by lia. clear H1.
  rewrite renderLoop_step_cursor by exact Hw.
  assert (Hcur : transition brokenBold defAttr defAttr (-1) = [CursorOpen]).
  { unfold transition, openSpan. apply not_eq_sym in Hdef. apply Z.eqb_neq in Hdef.
    rewrite Hdef, Z.eqb_refl. reflexivity. }
  rewrite Hcur. clear Hcur.
  destruct after as [|c2 l2].
  - cbn [List.length renderLoop map]. apply not_eq_sym in Hdef. apply Z.eqb_neq in Hdef.
    rewrite Hdef. rewrite <- !app_assoc. reflexivity.
  - pose proof (renderLoop_block brokenBold defAttr (Z.of_nat (List.length before))
                  defAttr c2 l2 Hafter (before ++ [c]) [] 0 (-1)
                  (map cellText before ++ [CursorOpen] ++ [cellText c])) as H2.
    rewrite app_nil_r, Nat.add_0_r in H2.
    replace ((before ++ [c]) ++ c2 :: l2) with (before ++ c :: c2 :: l2) in H2
      by (rewrite <- app_assoc; reflexivity).
    cbn [List.length] in H2 |- *.
    rewrite H2 by (left; rewrite length_app; cbn [List.length]; lia). clear H2.
    cbn [renderLoop]. rewrite Z.eqb_refl.
    unfold transition. apply Z.eqb_neq in Hdef. rewrite Hdef, Z.eqb_refl.
    replace (-1 =? defAttr) with false
      by (symmetry; apply Z.eqb_neq; apply Z.eqb_neq in Hdef; lia).
    cbn [app]. rewrite <- !app_assoc. reflexivity.
Qed.

Lemma cursor_cell_gets_cursor_span_witness :
  renderLine false 131840 3 1
    [mkCell 131840 "a" 1; mkCell 7 "b" 1; mkCell 131840 "c" 1]
  = [Text "a"; CursorOpen; Text "b"; SpanClose; Text "c"].
Proof.
  exact (cursor_cell_gets_cursor_span false 131840
           [mkCell 131840 "a" 1] [mkCell 131840 "c" 1] (mkCell 7 "b" 1)
           ltac:(discriminate) eq_refl
           ltac:(repeat constructor) ltac:(repeat constructor)).
Defined.



(** The iteration over the leading cell of a wide glyph. *)
Lemma renderLoop_step_wide (brokenBold : bool) (defAttr x : Z) (pre post : Line) (c : Cell)
    (n : nat) (attr_ : Z) (out : list Token) :
  chWidth c = 2 -> x <> Z.of_nat (List.length pre) ->
  renderLoop brokenBold defAttr x (pre ++ c :: post) (S n)
    (Z.of_nat (List.length pre)) attr_ out
  = renderLoop brokenBold defAttr x (pre ++ c :: post) n
      (Z.of_nat (List.length (pre ++ [c]))) (attr c)
      (out ++ transition brokenBold defAttr attr_ (attr c)
           ++ [WideOpen; cellText c; SpanClose]).
Proof.
  intros Hw Hx. cbn [renderLoop].
  rewrite Nat2Z.id, nth_error_app2, Nat.sub_diag by lia. cbn [nth_error].
  rewrite Hw. cbn [Z.eqb Pos.eqb].
  replace (Z.of_nat (List.length pre) =? x) with false
    by (symmetry; apply Z.eqb_neq; lia).
  rewrite length_app, <- !app_assoc. cbn [List.length app].
  replace (Z.of_nat (List.length pre) + 1) with (Z.of_nat (List.length pre + 1)) by lia.
  reflexivity.
Qed.

(** The iteration over a cell of width 0: nothing is appended and the running
    attribute stays, also when the cursor is in that column. *)
Lemma renderLoop_step_skip (brokenBold : bool) (defAttr x : Z) (pre post : Line) (c : Cell)
    (n : nat) (attr_ : Z) (out : list Token) :
  chWidth c = 0 ->
  renderLoop brokenBold defAttr x (pre ++ c :: post) (S n)
    (Z.of_nat (List.length pre)) attr_ out
  = renderLoop brokenBold defAttr x (pre ++ c :: post) n
      (Z.of_nat (List.length (pre ++ [c]))) attr_ out.
Proof.
  intros Hw. cbn [renderLoop].
  rewrite Nat2Z.id, nth_error_app2, Nat.sub_diag by lia. cbn [nth_error].
  rewrite Hw. cbn [Z.eqb]. rewrite length_app. cbn [List.length].
  replace (Z.of_nat (List.length pre) + 1) with (Z.of_nat (List.length pre + 1)) by lia.
  reflexivity.
Qed.

(** A wide glyph takes one piece of markup: on a line of default-attribute
    cells with the cursor elsewhere, a leading cell of width 2 is rendered
    inside the wide-character span, and the continuation cell of width 0 that
    follows it is skipped, whatever it holds. *)
Theorem wide_glyph_is_rendered_once :
  forall (brokenBold : bool) (defAttr x : Z) (before after : Line) (lead cont : Cell),
    attr lead = defAttr -> chWidth lead = 2 -> chWidth cont = 0 ->
    x < 0 \/ Z.of_nat (List.length (before ++ lead :: cont :: after)) <= x ->
    Forall (fun c => attr c = defAttr /\ chWidth c = 1) before ->
    Forall (fun c => attr c = defAttr /\ chWidth c = 1) after ->
    renderLine brokenBold defAttr
      (Z.of_nat (List.length (before ++ lead :: cont :: after))) x
      (before ++ lead :: cont :: after)
    = map cellText before
      ++ WideOpen :: cellText lead :: SpanClose :: map cellText after.
Proof.
  intros brokenBold defAttr x before after lead cont Ha Hlead Hcont Hx Hbefore Hafter.
  rewrite length_app in Hx. cbn [List.length] in Hx.
  unfold renderLine. rewrite Nat2Z.id, length_app. cbn [List.length].
  pose proof (renderLoop_same brokenBold defAttr x defAttr before Hbefore []
                (lead :: cont :: after) (S (S (List.length after))) []) as H1.
  cbn [app List.length] in H1. change (Z.of_nat 0) with 0 in H1.
  rewrite H1 by lia. clear H1.
  rewrite renderLoop_step_wide by (auto; lia).
  rewrite Ha, transition_same. cbn [app].
  replace (before ++ lead :: cont :: after) with ((before ++ [lead]) ++ cont :: after)
    by (rewrite <- app_assoc; reflexivity).
  rewrite renderLoop_step_skip by exact Hcont.
  pose proof (renderLoop_same brokenBold defAttr x defAttr after Hafter
                ((before ++ [lead]) ++ [cont]) [] 0
                (map cellText before ++ [WideOpen; cellText lead; SpanClose])) as H2.
  rewrite app_nil_r, Nat.add_0_r in H2.
  replace (((before ++ [lead]) ++ [cont]) ++ after)
    with ((before ++ [lead]) ++ cont :: after) in H2
    by (rewrite <- (app_assoc _ [cont]); reflexivity).
  rewrite H2 by (rewrite !length_app; cbn [List.length]; lia). clear H2.
  cbn [renderLoop]. rewrite Z.eqb_refl. rewrite <- !app_assoc. reflexivity.
Qed.

Lemma wide_glyph_is_rendered_once_witness :
  renderLine false 131840 3 (-1)
    [mkCell 131840 "W" 2; mkCell 7 "" 0; mkCell 131840 "a" 1]
  = [WideOpen; Text "W"; SpanClose; Text "a"].
Proof.
  assert (Hx : -1 < 0
               \/ Z.of_nat (List.length ([] ++ mkCell 131840 "W" 2 :: mkCell 7 "" 0
                                           :: [mkCell 131840 "a" 1])) <= -1)
    by (left; lia).
  exact (wide_glyph_is_rendered_once false 131840 (-1) [] [mkCell 131840 "a" 1]
           (mkCell 131840 "W" 2) (mkCell 7 "" 0) eq_refl eq_refl eq_refl Hx
           ltac:(constructor) ltac:(repeat constructor)).
Defined.

End CompositorMore.

(** * Further properties of the row loop of [_refresh] *)
Module RefreshMore.
Import Renderer Compositor Refresh CompositorMore.





End RefreshMore.
